(** * update_quote.py: line wrapping and SVG rendering of a quote

    A shallow embedding of [wrap_text] and [generate_quote_svg] from
    [update_quote.py], and the properties its specification states about
    them.

    A Python [str] is a sequence of Unicode code points; it is modelled as a
    list of code points ([N]).  A Python [int] is unbounded; it is modelled
    as [Z].  [len] therefore counts code points, as in Python. *)

From Stdlib Require Import Ascii String Decimal.
From Stdlib Require Import List ZArith NArith Bool Lia.
Import ListNotations.

Local Open Scope Z_scope.

(* ================================================================== *)
(** * Python strings *)

Module PyStr.

Definition char := N.
Definition str := list char.

(** A literal of the source; the literals of [update_quote.py] that go
    through here are ASCII, so a character is its own code point. *)
Definition lit (s : string) : str :=
  map N_of_ascii (list_ascii_of_string s).

(** The characters the source writes that a literal above cannot hold. *)
Definition space : char := 32%N.
Definition dquote : char := 34%N.
Definition newline : char := 10%N.
Definition em_dash : char := 8212%N.

(** [len(x)], of a string or of a list. *)
Definition len {A : Type} (x : list A) : Z := Z.of_nat (List.length x).

(** The truth value of a list: [if current_line]. *)
Definition truthy {A : Type} (l : list A) : bool :=
  match l with
  | [] => false
  | _ :: _ => true
  end.

(** [str.isspace] on one code point, which is what [str.split()] uses to
    find the separators: the ASCII white space (TAB..CR, FS..US, SPACE) and
    the Unicode characters of bidirectional type WS, B or S or of category
    Zs. *)
Definition isspace (c : char) : bool :=
  (((9 <=? c) && (c <=? 13)) || ((28 <=? c) && (c <=? 32))
   || (c =? 133) || (c =? 160) || (c =? 5760)
   || ((8192 <=? c) && (c <=? 8202))
   || (c =? 8232) || (c =? 8233) || (c =? 8239) || (c =? 8287)
   || (c =? 12288))%N.

(** [text.split()]: runs of white space separate the words, leading and
    trailing white space gives no empty word.  [word] is the word being read
    (empty between words). *)
Fixpoint split_from (word : str) (s : str) : list str :=
  match s with
  | [] => if truthy word then [word] else []
  | c :: s' =>
      if isspace c
      then (if truthy word then word :: split_from [] s' else split_from [] s')
      else split_from (word ++ [c]) s'
  end.

Definition split (s : str) : list str := split_from [] s.

(** [sep.join(parts)] *)
Fixpoint join (sep : str) (parts : list str) : str :=
  match parts with
  | [] => []
  | p :: rest =>
      match rest with
      | [] => p
      | _ :: _ => p ++ sep ++ join sep rest
      end
  end.

(** [str(n)] for an [int], as an f-string field renders it. *)
Fixpoint digits (d : Decimal.uint) : str :=
  match d with
  | Nil => []
  | D0 d => 48%N :: digits d
  | D1 d => 49%N :: digits d
  | D2 d => 50%N :: digits d
  | D3 d => 51%N :: digits d
  | D4 d => 52%N :: digits d
  | D5 d => 53%N :: digits d
  | D6 d => 54%N :: digits d
  | D7 d => 55%N :: digits d
  | D8 d => 56%N :: digits d
  | D9 d => 57%N :: digits d
  end.

Definition str_of_int (n : Z) : str :=
  match Z.to_int n with
  | Decimal.Pos d => digits d
  | Decimal.Neg d => 45%N :: digits d
  end.

End PyStr.

Import PyStr.

(* ================================================================== *)
(** * The module constants *)

Definition MAX_LINE_LENGTH : Z := 80.
Definition SVG_WIDTH : Z := 700.
Definition SVG_LINE_HEIGHT : Z := 20.
Definition SVG_PADDING : Z := 20.
Definition SVG_QUOTE_FONT_SIZE : Z := 16.
Definition SVG_AUTHOR_FONT_SIZE : Z := 14.

(* ================================================================== *)
(** * [wrap_text] *)

(** The three locals the loop of [wrap_text] updates. *)
Record wrap_state : Type := WrapState {
  lines : list str;
  current_line : list str;
  current_length : Z
}.

Definition wrap_init : wrap_state :=
  {| lines := []; current_line := []; current_length := 0 |}.

(** [lines.append(" ".join(current_line))] under [if current_line]. *)
Definition flush (ls : list str) (cur : list str) : list str :=
  if truthy cur then ls ++ [join [space] cur] else ls.

(** One iteration of [for word in words]. *)
Definition wrap_step (max_length : Z) (st : wrap_state) (word : str)
  : wrap_state :=
  let word_length :=
    len word + (if truthy (current_line st) then 1 else 0) in
  if current_length st + word_length <=? max_length
  then {| lines := lines st;
          current_line := current_line st ++ [word];
          current_length := current_length st + word_length |}
  else {| lines := flush (lines st) (current_line st);
          current_line := [word];
          current_length := len word |}.

Definition wrap_loop (max_length : Z) (words : list str) (st : wrap_state)
  : wrap_state :=
  fold_left (wrap_step max_length) words st.

Definition wrap_text (text : str) (max_length : Z) : list str :=
  let words := split text in
  let st := wrap_loop max_length words wrap_init in
  flush (lines st) (current_line st).

(* ================================================================== *)
(** * [generate_quote_svg] *)

(** One attribute as the f-strings of the source spell it: a space, the
    name, [=] and the value between double quotes. *)
Definition fattr (name : string) (value : str) : str :=
  lit " " ++ lit name ++ lit "=" ++ [dquote] ++ value ++ [dquote].

Definition font_family : str :=
  lit "'Segoe UI', 'Helvetica', 'Arial', sans-serif".

(** The attributes of the root element, and the first two elements of
    [svg_parts]. *)
Definition svg_attrs (height : Z) : str :=
  fattr "width" (str_of_int SVG_WIDTH)
  ++ fattr "height" (str_of_int height)
  ++ fattr "xmlns" (lit "http://www.w3.org/2000/svg").

Definition svg_open (height : Z) : str :=
  lit "<svg" ++ svg_attrs height ++ lit ">".

Definition svg_rect (height : Z) : str :=
  lit "  <rect" ++ fattr "width" (str_of_int SVG_WIDTH)
  ++ fattr "height" (str_of_int height)
  ++ fattr "fill" (lit "none") ++ lit "/>".

(** The f-string appended for each wrapped line: its attributes, and the
    whole of it. *)
Definition quote_attrs (y : Z) : str :=
  fattr "x" (lit "50%") ++ fattr "y" (str_of_int y)
  ++ fattr "font-family" font_family
  ++ fattr "font-size" (str_of_int SVG_QUOTE_FONT_SIZE)
  ++ fattr "fill" (lit "#586069")
  ++ fattr "text-anchor" (lit "middle")
  ++ fattr "font-style" (lit "italic").

Definition quote_row (y : Z) (line : str) : str :=
  lit "    <text" ++ quote_attrs y
  ++ lit ">" ++ [dquote] ++ line ++ [dquote] ++ lit "</text>".

(** The f-string appended for the author. *)
Definition author_attrs (y : Z) : str :=
  fattr "x" (lit "50%") ++ fattr "y" (str_of_int y)
  ++ fattr "font-family" font_family
  ++ fattr "font-size" (str_of_int SVG_AUTHOR_FONT_SIZE)
  ++ fattr "fill" (lit "#6a737d")
  ++ fattr "text-anchor" (lit "middle").

Definition author_row (y : Z) (author : str) : str :=
  lit "    <text" ++ author_attrs y
  ++ lit ">" ++ [em_dash; space] ++ author ++ lit "</text>".

(** The two locals the loop of [generate_quote_svg] updates. *)
Record svg_state : Type := SvgState {
  svg_parts : list str;
  y_offset : Z
}.

(** One iteration of [for line in lines]. *)
Definition render_step (st : svg_state) (line : str) : svg_state :=
  {| svg_parts := svg_parts st ++ [quote_row (y_offset st) line];
     y_offset := y_offset st + SVG_LINE_HEIGHT |}.

(** [svg_parts] as it is when [generate_quote_svg] joins it. *)
Definition final_svg_parts (quote_text author : str) : list str :=
  let lines := wrap_text quote_text MAX_LINE_LENGTH in
  let height := len lines * SVG_LINE_HEIGHT + 60 + SVG_PADDING * 2 in
  let st0 := {| svg_parts := [svg_open height; svg_rect height; lit "  <g>"];
                y_offset := SVG_PADDING + 25 |} in
  let st := fold_left render_step lines st0 in
  (svg_parts st ++ [author_row (y_offset st + 20) author])
  ++ [lit "  </g>"; lit "</svg>"].

Definition generate_quote_svg (quote_text author : str) : str :=
  join [newline] (final_svg_parts quote_text author).

(* ================================================================== *)
(** * Reading the document back

    What the specification says about the document (the height attribute,
    the rows, their positions and fonts) is stated on what a reader finds in
    the emitted text. *)

Module Svg.

(** [s] without its prefix [p], when it has it. *)
Fixpoint strip_prefix (p s : str) : option str :=
  match p with
  | [] => Some s
  | a :: p' =>
      match s with
      | [] => None
      | b :: s' => if (a =? b)%N then strip_prefix p' s' else None
      end
  end.

Definition strip_suffix (p s : str) : option str :=
  option_map (@List.rev char) (strip_prefix (List.rev p) (List.rev s)).

(** What follows the first occurrence of [p] in [s]. *)
Fixpoint find_after (p s : str) : option str :=
  match strip_prefix p s with
  | Some r => Some r
  | None =>
      match s with
      | [] => None
      | _ :: s' => find_after p s'
      end
  end.

(** [s] cut at its first [c]: what is before, and what is after. *)
Fixpoint break_at (c : char) (s : str) : option (str * str) :=
  match s with
  | [] => None
  | b :: s' =>
      if (b =? c)%N then Some ([], s')
      else option_map (fun '(u, v) => (b :: u, v)) (break_at c s')
  end.

Fixpoint drop_spaces (s : str) : str :=
  match s with
  | [] => []
  | b :: s' => if (b =? space)%N then drop_spaces s' else s
  end.

(** The attributes of an opening tag [<tag attributes>]. *)
Definition open_tag (tag : string) (s : str) : option str :=
  match strip_prefix (lit "<" ++ lit tag) (drop_spaces s) with
  | None => None
  | Some r => option_map fst (break_at 62%N r)
  end.

(** The value of the attribute [name] among [attrs]. *)
Definition attribute (name : string) (attrs : str) : option str :=
  match find_after (lit " " ++ lit name ++ lit "=" ++ [dquote]) attrs with
  | None => None
  | Some r => option_map fst (break_at dquote r)
  end.

(** The value of the attribute [name] of the root element of [doc]. *)
Definition root_attribute (name : string) (doc : str) : option str :=
  match open_tag "svg" doc with
  | None => None
  | Some attrs => attribute name attrs
  end.

(** Whether [s] is the opening tag of a [tag] element. *)
Definition opens (tag : string) (s : str) : bool :=
  match open_tag tag s with
  | None => false
  | Some attrs =>
      match attrs with
      | [] => true
      | c :: _ => (c =? space)%N
      end
  end.

(** A text row as a reader sees it. *)
Record text_row : Type := TextRow {
  row_y : option str;
  row_font_size : option str;
  row_anchor : option str;
  row_style : option str;
  row_content : str
}.

(** An opening tag [<tag attributes>] at the head of [s]: its attributes
    and what follows the tag. *)
Definition open_here (tag : string) (s : str) : option (str * str) :=
  match strip_prefix (lit "<" ++ lit tag) s with
  | None => None
  | Some r =>
      match r with
      | [] => None
      | c :: _ =>
          if ((c =? space) || (c =? 62))%N then break_at 62%N r else None
      end
  end.

(** A text element at the head of [s]: an opening [<text ...>] tag, text
    that holds no [<], and the closing tag. *)
Definition text_here (s : str) : option text_row :=
  match open_here "text" s with
  | None => None
  | Some (attrs, rest) =>
      match break_at 60%N rest with
      | None => None
      | Some (content, after) =>
          match strip_prefix (lit "/text>") after with
          | None => None
          | Some _ =>
              Some {| row_y := attribute "y" attrs;
                      row_font_size := attribute "font-size" attrs;
                      row_anchor := attribute "text-anchor" attrs;
                      row_style := attribute "font-style" attrs;
                      row_content := content |}
          end
      end
  end.

(** What [here] finds at each position of [s], from the left. *)
Fixpoint scan {A : Type} (here : str -> option A) (s : str) : list A :=
  match s with
  | [] => []
  | _ :: s' =>
      match here s with
      | Some a => a :: scan here s'
      | None => scan here s'
      end
  end.

(** The text elements of a document, in document order. *)
Definition text_elements (doc : str) : list text_row := scan text_here doc.

(** The lines of a text: what its newlines separate. *)
Fixpoint lines_from (cur : str) (s : str) : list str :=
  match s with
  | [] => [cur]
  | c :: s' =>
      if (c =? newline)%N then cur :: lines_from [] s'
      else lines_from (cur ++ [c]) s'
  end.

Definition doc_lines (doc : str) : list str := lines_from [] doc.

(** The lines of a document that open a text element, in document order,
    and an attribute of the tag that such a line opens with. *)
Definition text_lines (doc : str) : list str :=
  filter (opens "text") (doc_lines doc).

Definition line_attribute (name : string) (line : str) : option str :=
  match open_tag "text" line with
  | None => None
  | Some attrs => attribute name attrs
  end.

(** [s] has no [c]. *)
Definition lacks (c : char) (s : str) : bool :=
  forallb (fun b => negb (b =? c)%N) s.

(** The characters [str_of_int] writes. *)
Definition numeric (c : char) : bool :=
  ((c =? 45) || ((48 <=? c) && (c <=? 57)))%N.

(** What a reader finds in the row of a wrapped line, and in the row of
    the author. *)
Definition quote_view (y : Z) (line : str) : text_row :=
  {| row_y := Some (str_of_int y);
     row_font_size := Some (lit "16");
     row_anchor := Some (lit "middle");
     row_style := Some (lit "italic");
     row_content := [dquote] ++ line ++ [dquote] |}.

Definition author_view (y : Z) (author : str) : text_row :=
  {| row_y := Some (str_of_int y);
     row_font_size := Some (lit "14");
     row_anchor := Some (lit "middle");
     row_style := None;
     row_content := [em_dash; space] ++ author |}.

End Svg.

(* ================================================================== *)
(** * What the specification speaks of *)

(** A word of [split]: not empty, and without white space. *)
Definition no_space (w : str) : Prop :=
  Forall (fun c => isspace c = false) w.

Definition is_word (w : str) : Prop := w <> [] /\ no_space w.

Definition longest_word (text : str) : Z :=
  fold_right Z.max 0 (map len (split text)).

(** Two adjacent space characters somewhere in [s]. *)
Fixpoint has_double_space (s : str) : bool :=
  match s with
  | [] => false
  | c :: s' =>
      match s' with
      | [] => false
      | d :: _ => ((c =? space)%N && (d =? space)%N) || has_double_space s'
      end
  end.

(** A text written with a backquote wherever it has a double quote. *)
Definition backquoted (s : string) : str :=
  map (fun c => if (c =? 96)%N then dquote else c) (lit s).

(** The first and the last character of a string, if any. *)
Definition first_char (s : str) : option char := hd_error s.
Definition last_char (s : str) : option char := hd_error (List.rev s).

(** [current_length] is the length of the line that [current_line] joins
    to. *)
Definition length_tracked (st : wrap_state) : Prop :=
  current_length st = len (join [space] (current_line st)).

(** The lines made so far, and the one being filled, are within
    [max_length]. *)
Definition within_budget (max_length : Z) (st : wrap_state) : Prop :=
  length_tracked st
  /\ current_length st <= max_length
  /\ Forall (fun l => len l <= max_length) (lines st).

(** A line is the single-space join of some words of [all], at least one. *)
Definition line_of (all : list str) (l : str) : Prop :=
  exists ws, ws <> [] /\ incl ws all /\ l = join [space] ws.

Definition lines_shaped (all : list str) (st : wrap_state) : Prop :=
  Forall (line_of all) (lines st) /\ incl (current_line st) all.

(** [w] is a line already, or it is alone on the line being filled. *)
Definition alone (w : str) (st : wrap_state) : Prop :=
  In w (lines st) \/ current_line st = [w].

(** [f] applied to the elements of [l] and their indexes, counted from
    [i]. *)
Fixpoint mapi_from {A B : Type} (f : nat -> A -> B) (i : nat) (l : list A)
  : list B :=
  match l with
  | [] => []
  | x :: l' => f i x :: mapi_from f (S i) l'
  end.

(** The vertical position of the row of the wrapped line number [i],
    counted from 0. *)
Definition row_position (i : nat) : Z := 45 + 20 * Z.of_nat i.

(** The text row number [i] of the returned document (its line number [i]
    among those that open a text element) holds the wrapped line number [i]
    between double quotes, and is at [padding + 25 + 20 * i]. *)
Definition quote_rows_positioned (quote_text author : str) : Prop :=
  let rows := Svg.text_lines (generate_quote_svg quote_text author) in
  forall (i : nat) (line : str),
    nth_error (wrap_text quote_text MAX_LINE_LENGTH) i = Some line ->
    exists row tag,
      nth_error rows i = Some row
      /\ row = tag ++ [dquote] ++ line ++ [dquote] ++ lit "</text>"
      /\ Svg.line_attribute "y" row
         = Some (str_of_int (SVG_PADDING + 25 + SVG_LINE_HEIGHT * Z.of_nat i)).

(** The text row of the returned document after those of the wrapped lines
    starts with the em dash of the attribution, and is [gap] units below the
    row of the last wrapped line. *)
Definition author_row_below_last (gap : Z) (quote_text author : str) : Prop :=
  let rows := Svg.text_lines (generate_quote_svg quote_text author) in
  forall last : nat,
    length (wrap_text quote_text MAX_LINE_LENGTH) = S last ->
    exists row tag rest,
      nth_error rows (S last) = Some row
      /\ row = tag ++ lit ">" ++ [em_dash; space] ++ rest
      /\ Svg.line_attribute "y" row
         = Some (str_of_int (SVG_PADDING + 25
                             + SVG_LINE_HEIGHT * Z.of_nat last + gap)).

(** The text elements that the specification describes: one for each
    wrapped line, from the top, and the attribution after them. *)
Definition expected_rows (ls : list str) (author : str) : list Svg.text_row :=
  mapi_from
    (fun i l =>
       {| Svg.row_y := Some (str_of_int (45 + 20 * Z.of_nat i));
          Svg.row_font_size := Some (lit "16");
          Svg.row_anchor := Some (lit "middle");
          Svg.row_style := Some (lit "italic");
          Svg.row_content := [dquote] ++ l ++ [dquote] |})
    0 ls
  ++ [ {| Svg.row_y := Some (str_of_int (65 + 20 * len ls));
          Svg.row_font_size := Some (lit "14");
          Svg.row_anchor := Some (lit "middle");
          Svg.row_style := None;
          Svg.row_content := [em_dash; space] ++ author |} ].

(** The document as the specification describes it: the root element with
    width 700 and the computed height, around a rect and one grouping
    element that holds the rows, and, as its text elements, one for each
    wrapped line and the attribution. *)
Definition document_as_specified (quote_text author : str) : Prop :=
  let ls := wrap_text quote_text MAX_LINE_LENGTH in
  let h := 20 * len ls + 100 in
  let doc := generate_quote_svg quote_text author in
  Svg.root_attribute "width" doc = Some (lit "700")
  /\ Svg.root_attribute "height" doc = Some (str_of_int h)
  /\ (exists rows : list str,
         doc = join [newline]
                 ([svg_open h; svg_rect h; lit "  <g>"]
                  ++ rows ++ [lit "  </g>"; lit "</svg>"])
         /\ length rows = S (length ls))
  /\ Svg.text_elements doc = expected_rows ls author.

(* ================================================================== *)
(** * The two functions as runs of their statements

    The control flow of [wrap_text] and of [generate_quote_svg], one rule
    for each path through the loop bodies and through the final [if]. *)

(** One iteration of [for word in words], from the locals before to the
    locals after. *)
Inductive wrap_iter (max_length : Z) (word : str)
  : wrap_state -> wrap_state -> Prop :=
| iter_append (st : wrap_state) :
    current_length st
    + (len word + (if truthy (current_line st) then 1 else 0)) <= max_length ->
    wrap_iter max_length word st
      {| lines := lines st;
         current_line := current_line st ++ [word];
         current_length :=
           current_length st
           + (len word + (if truthy (current_line st) then 1 else 0)) |}
| iter_flush (st : wrap_state) :
    max_length
    < current_length st
      + (len word + (if truthy (current_line st) then 1 else 0)) ->
    current_line st <> [] ->
    wrap_iter max_length word st
      {| lines := lines st ++ [join [space] (current_line st)];
         current_line := [word];
         current_length := len word |}
| iter_restart (st : wrap_state) :
    max_length
    < current_length st
      + (len word + (if truthy (current_line st) then 1 else 0)) ->
    current_line st = [] ->
    wrap_iter max_length word st
      {| lines := lines st;
         current_line := [word];
         current_length := len word |}.

Inductive wrap_run (max_length : Z)
  : list str -> wrap_state -> wrap_state -> Prop :=
| wrap_run_done (st : wrap_state) : wrap_run max_length [] st st
| wrap_run_word (word : str) (words : list str) (st st' st'' : wrap_state) :
    wrap_iter max_length word st st' ->
    wrap_run max_length words st' st'' ->
    wrap_run max_length (word :: words) st st''.

(** [wrap_text(text, max_length)] returns [result]. *)
Inductive wraps (text : str) (max_length : Z) : list str -> Prop :=
| wraps_flush (st : wrap_state) :
    wrap_run max_length (split text) wrap_init st ->
    current_line st <> [] ->
    wraps text max_length (lines st ++ [join [space] (current_line st)])
| wraps_plain (st : wrap_state) :
    wrap_run max_length (split text) wrap_init st ->
    current_line st = [] ->
    wraps text max_length (lines st).

Inductive render_run : list str -> svg_state -> svg_state -> Prop :=
| render_run_done (st : svg_state) : render_run [] st st
| render_run_line (line : str) (ls : list str) (st st' : svg_state) :
    render_run ls
      {| svg_parts := svg_parts st ++ [quote_row (y_offset st) line];
         y_offset := y_offset st + SVG_LINE_HEIGHT |} st' ->
    render_run (line :: ls) st st'.

(** [generate_quote_svg(quote_text, author)] returns [doc]. *)
Inductive renders (quote_text author : str) : str -> Prop :=
| renders_intro (ls : list str) (st : svg_state) :
    wraps quote_text MAX_LINE_LENGTH ls ->
    render_run ls
      {| svg_parts :=
           [svg_open (len ls * SVG_LINE_HEIGHT + 60 + SVG_PADDING * 2);
            svg_rect (len ls * SVG_LINE_HEIGHT + 60 + SVG_PADDING * 2);
            lit "  <g>"];
         y_offset := SVG_PADDING + 25 |} st ->
    renders quote_text author
      (join [newline]
         ((svg_parts st ++ [author_row (y_offset st + 20) author])
          ++ [lit "  </g>"; lit "</svg>"])).

(* ================================================================== *)
(** * [update_readme], [load_quotes] and [main]

    The rest of the script works on files, prints and may stop the
    process.  A program is a function of the state of what it touches: the
    three files next to the script and the standard output. *)

Module Script.

Definition QUOTE_MARKER_START : str := lit "<!-- QUOTE:START -->".
Definition QUOTE_MARKER_END : str := lit "<!-- QUOTE:END -->".

(** [class Quote(TypedDict)] *)
Record Quote : Type := MkQuote {
  quote : str;
  author : str
}.

(** [s.partition(p)] where [p] occurs: what is before the first occurrence
    of [p] in [s] and what is after it. *)
Fixpoint partition (p s : str) : option (str * str) :=
  match Svg.strip_prefix p s with
  | Some r => Some ([], r)
  | None =>
      match s with
      | [] => None
      | c :: s' => option_map (fun '(u, v) => (c :: u, v)) (partition p s')
      end
  end.

(** [p in s] *)
Definition contains (p s : str) : bool :=
  match partition p s with
  | Some _ => true
  | None => false
  end.

(** The pattern [start.*?stop] with [re.DOTALL], tried at the head of [s]:
    [start], then as few characters as possible, of any kind, up to [stop].
    The length of the match, when there is one. *)
Definition match_here (start stop s : str) : option nat :=
  match Svg.strip_prefix start s with
  | None => None
  | Some r =>
      match partition stop r with
      | None => None
      | Some (mid, _) =>
          Some (length start + length mid + length stop)%nat
      end
  end.

(** [re.sub(pattern, repl, s, flags=re.DOTALL)] for that pattern and a
    replacement without backslash: the pattern is tried at each position
    from the left; where it matches, [repl] is written and the scan goes on
    after the match ([skip] characters of it are still to pass); elsewhere
    the character is copied. *)
Fixpoint sub_scan (start stop repl : str) (skip : nat) (s : str) : str :=
  match s with
  | [] => []
  | c :: s' =>
      match skip with
      | S k => sub_scan start stop repl k s'
      | O =>
          match match_here start stop s with
          | Some n => repl ++ sub_scan start stop repl (Nat.pred n) s'
          | None => c :: sub_scan start stop repl O s'
          end
      end
  end.

Definition re_sub (start stop repl content : str) : str :=
  sub_scan start stop repl O content.

(** The f-string [replacement] of [update_readme]. *)
Definition replacement : str :=
  QUOTE_MARKER_START ++ [newline]
  ++ lit "<img" ++ fattr "src" (lit "./quote.svg") ++ fattr "alt" (lit "Quote")
  ++ lit " />" ++ [newline] ++ QUOTE_MARKER_END.

(** [re.sub] as [update_readme] calls it. *)
Definition resub (content : str) : str :=
  re_sub QUOTE_MARKER_START QUOTE_MARKER_END replacement content.

(** What [replacement] holds between the two markers. *)
Definition image_line : str :=
  [newline] ++ lit "<img" ++ fattr "src" (lit "./quote.svg")
  ++ fattr "alt" (lit "Quote") ++ lit " />" ++ [newline].

Inductive exception : Type :=
| IndexError
| UnicodeEncodeError
| UnicodeDecodeError
| OSError.

(** What opening and reading a file gives: its text, as [read_text]
    returns it (decoded, its line ends already translated to newlines); or
    [FileNotFoundError], with its message; or another exception, which the
    script does not catch. *)
Inductive file : Type :=
| Text (content : str)
| NotFound (message : str)
| Unreadable (e : exception).

(** The files next to the script, the lines printed so far, and the text
    of the path of [README.md]. *)
Record world : Type := World {
  quotes_json : file;
  readme_md : file;
  quote_svg : file;
  stdout : list str;
  readme_path : str
}.

(** How a call ends: it returns, [sys.exit] stops the process, or an
    exception that nothing catches goes up. *)
Inductive result (A : Type) : Type :=
| Ok (a : A)
| Exit (code : Z)
| Raise (e : exception).

Arguments Ok {A} a.
Arguments Exit {A} code.
Arguments Raise {A} e.

Definition prog (A : Type) : Type := world -> result A * world.

Definition ret {A : Type} (a : A) : prog A := fun w => (Ok a, w).

Definition bind {A B : Type} (m : prog A) (k : A -> prog B) : prog B :=
  fun w =>
    match m w with
    | (Ok a, w') => k a w'
    | (Exit code, w') => (Exit code, w')
    | (Raise e, w') => (Raise e, w')
    end.

Notation "x <- m ;; k" := (bind m (fun x => k))
  (at level 61, m at next level, right associativity).
Notation "m ;;; k" := (bind m (fun _ => k))
  (at level 61, right associativity).

(** A text encodes as UTF-8 when it holds no surrogate code point; a
    Python [str] can hold one ([json.load] yields one for an escaped lone
    surrogate). *)
Definition surrogate (c : char) : bool :=
  ((55296 <=? c) && (c <=? 57343))%N.

Definition encodable (s : str) : bool :=
  forallb (fun c => negb (surrogate c)) s.

Definition sys_exit {A : Type} (code : Z) : prog A := fun w => (Exit code, w).

Definition raise {A : Type} (e : exception) : prog A :=
  fun w => (Raise e, w).

Definition get {A : Type} (f : world -> A) : prog A := fun w => (Ok (f w), w).

(** [print(line)], standard output encoding as UTF-8: a line that does
    not encode raises [UnicodeEncodeError] and nothing is printed. *)
Definition print (line : str) : prog unit :=
  fun w =>
    if encodable line
    then (Ok tt,
          {| quotes_json := quotes_json w; readme_md := readme_md w;
             quote_svg := quote_svg w; stdout := stdout w ++ [line];
             readme_path := readme_path w |})
    else (Raise UnicodeEncodeError, w).

(** [print(f"Error loading quotes: {e}")] for the exception [e] that
    [load_quotes] caught; [message] is [str(e)].  The text of these two
    exceptions always encodes (a [FileNotFoundError] writes the file name
    with [repr], which escapes surrogates, and the message of a
    [JSONDecodeError] is ASCII), so this print returns. *)
Definition print_caught (message : str) : prog unit :=
  fun w =>
    (Ok tt,
     {| quotes_json := quotes_json w; readme_md := readme_md w;
        quote_svg := quote_svg w;
        stdout := stdout w ++ [lit "Error loading quotes: " ++ message];
        readme_path := readme_path w |}).

(** [svg_file.write_text(svg, encoding="utf-8")] and
    [readme_file.write_text(new_content, encoding="utf-8")]: the file is
    opened for writing, which empties it, and then the text is encoded and
    written; a text that does not encode raises [UnicodeEncodeError] and
    leaves the file empty. *)
Definition write_svg (text : str) : prog unit :=
  fun w =>
    if encodable text
    then (Ok tt,
          {| quotes_json := quotes_json w; readme_md := readme_md w;
             quote_svg := Text text; stdout := stdout w;
             readme_path := readme_path w |})
    else (Raise UnicodeEncodeError,
          {| quotes_json := quotes_json w; readme_md := readme_md w;
             quote_svg := Text []; stdout := stdout w;
             readme_path := readme_path w |}).

Definition write_readme (text : str) : prog unit :=
  fun w =>
    if encodable text
    then (Ok tt,
          {| quotes_json := quotes_json w; readme_md := Text text;
             quote_svg := quote_svg w; stdout := stdout w;
             readme_path := readme_path w |})
    else (Raise UnicodeEncodeError,
          {| quotes_json := quotes_json w; readme_md := Text [];
             quote_svg := quote_svg w; stdout := stdout w;
             readme_path := readme_path w |}).

Definition markers_message : str :=
  lit "Error: Quote markers not found in README. Please add "
  ++ QUOTE_MARKER_START ++ lit " and " ++ QUOTE_MARKER_END ++ lit " markers.".

Definition updated_message (quote_data : Quote) : str :=
  [9989%N] ++ lit " Updated quote: " ++ [dquote] ++ quote quote_data
  ++ [dquote] ++ lit " - " ++ author quote_data.

Definition update_readme (quote_data : Quote) : prog unit :=
  readme <- get readme_md ;;
  path <- get readme_path ;;
  match readme with
  | NotFound _ =>
      print (lit "Error: " ++ path ++ lit " not found.") ;;; sys_exit 1
  | Unreadable e => raise e
  | Text content =>
      if negb (contains QUOTE_MARKER_START content)
      then print markers_message ;;; sys_exit 1
      else
        write_svg (generate_quote_svg (quote quote_data) (author quote_data)) ;;;
        write_readme (resub content) ;;;
        print (updated_message quote_data)
  end.

(** [load_quotes]; [json_load] stands for [json.load]: the quotes the text
    decodes to, or the message of the [JSONDecodeError]. *)
Definition load_quotes (json_load : str -> list Quote + str)
  : prog (list Quote) :=
  quotes_file <- get quotes_json ;;
  match quotes_file with
  | NotFound e => print_caught e ;;; sys_exit 1
  | Unreadable e => raise e
  | Text text =>
      match json_load text with
      | inl quotes => ret quotes
      | inr e => print_caught e ;;; sys_exit 1
      end
  end.

(** [random.choice(seq)]: [IndexError] on an empty sequence, else the
    element at the index that the generator draws below [len(seq)];
    [randbelow] stands for the generator. *)
Definition choice {A : Type} (randbelow : nat -> nat) (seq : list A)
  : prog A :=
  match seq with
  | [] => raise IndexError
  | _ :: _ =>
      match nth_error seq (randbelow (length seq)) with
      | Some x => ret x
      | None => raise IndexError
      end
  end.

Definition main (json_load : str -> list Quote + str)
  (randbelow : nat -> nat) : prog unit :=
  quotes <- load_quotes json_load ;;
  random_quote <- choice randbelow quotes ;;
  update_readme random_quote.

End Script.

(** Each line but the first starts with a word that did not fit on the
    line before it. *)
Definition break_forced (max_length : Z) (l1 l2 : str) : Prop :=
  forall w ws, split l2 = w :: ws -> max_length < len l1 + 1 + len w.

Fixpoint chain (R : str -> str -> Prop) (ls : list str) : Prop :=
  match ls with
  | [] => True
  | l1 :: tl =>
      match tl with
      | [] => True
      | l2 :: _ => R l1 l2 /\ chain R tl
      end
  end.

(** The breaks so far are forced, and so would be one before the line
    being filled. *)
Definition breaks_forced (max_length : Z) (st : wrap_state) : Prop :=
  chain (break_forced max_length) (lines st)
  /\ Forall is_word (current_line st)
  /\ length_tracked st
  /\ (current_line st = [] -> lines st = [])
  /\ (forall ls l w rest,
         lines st = ls ++ [l] -> current_line st = w :: rest ->
         max_length < len l + 1 + len w).

(* ================================================================== *)
(** * The examples of the specification *)

Example wrap_text_quick_brown_fox :
  wrap_text (lit "the quick brown fox jumps") 10
  = [lit "the quick"; lit "brown fox"; lit "jumps"].
Proof. vm_compute. reflexivity. Qed.

Example split_collapses_whitespace :
  split (9%N :: lit "  a  bc " ++ [newline; 8195%N] ++ lit "d ")
  = [lit "a"; lit "bc"; lit "d"].
Proof. vm_compute. reflexivity. Qed.

Example str_of_int_examples :
  str_of_int 0 = lit "0" /\ str_of_int 700 = lit "700"
  /\ str_of_int (-45) = lit "-45".
Proof. vm_compute. repeat split. Qed.

Example generate_quote_svg_of_a_quote :
  generate_quote_svg (lit "Talk is cheap.  Show me the code.") (lit "Linus")
  = join [newline]
      [ backquoted
          "<svg width=`700` height=`120` xmlns=`http://www.w3.org/2000/svg`>";
        backquoted "  <rect width=`700` height=`120` fill=`none`/>";
        backquoted "  <g>";
        backquoted
          "    <text x=`50%` y=`45` font-family=`'Segoe UI', 'Helvetica', 'Arial', sans-serif` font-size=`16` fill=`#586069` text-anchor=`middle` font-style=`italic`>`Talk is cheap. Show me the code.`</text>";
        backquoted
          "    <text x=`50%` y=`85` font-family=`'Segoe UI', 'Helvetica', 'Arial', sans-serif` font-size=`14` fill=`#6a737d` text-anchor=`middle`>"
        ++ [em_dash; space] ++ lit "Linus</text>";
        backquoted "  </g>";
        backquoted "</svg>" ].
Proof. vm_compute. reflexivity. Qed.

Example text_elements_of_a_quote :
  Svg.text_elements (generate_quote_svg (lit "Talk is cheap.") (lit "Linus"))
  = [ {| Svg.row_y := Some (lit "45"); Svg.row_font_size := Some (lit "16");
         Svg.row_anchor := Some (lit "middle");
         Svg.row_style := Some (lit "italic");
         Svg.row_content := [dquote] ++ lit "Talk is cheap." ++ [dquote] |};
      {| Svg.row_y := Some (lit "85"); Svg.row_font_size := Some (lit "14");
         Svg.row_anchor := Some (lit "middle");
         Svg.row_style := None;
         Svg.row_content := [em_dash; space] ++ lit "Linus" |} ]
  /\ Svg.text_lines (generate_quote_svg (lit "Talk is cheap.") (lit "Linus"))
     = [ quote_row 45 (lit "Talk is cheap."); author_row 85 (lit "Linus") ].
Proof. vm_compute. split; reflexivity. Qed.

(* ================================================================== *)
(** * Words, [split] and [join] *)

Lemma isspace_space : isspace space = true.
Proof. reflexivity. Qed.

Lemma truthy_app {A : Type} (l : list A) (x : A) : truthy (l ++ [x]) = true.
Proof. destruct l; reflexivity. Qed.

Lemma truthy_false {A : Type} (l : list A) : truthy l = false -> l = [].
Proof. destruct l; [reflexivity | discriminate]. Qed.

Lemma truthy_true {A : Type} (l : list A) : truthy l = true -> l <> [].
Proof. destruct l; [discriminate | intros _ H; discriminate]. Qed.

Lemma no_space_app (u v : str) :
  no_space u -> no_space v -> no_space (u ++ v).
Proof. intros Hu Hv. apply Forall_app. split; assumption. Qed.

Lemma split_from_words (s : str) :
  forall word, no_space word -> Forall is_word (split_from word s).
Proof.
  induction s as [|c s IH]; intros word Hw; simpl.
  - destruct word as [|a word]; simpl; [constructor|].
    constructor; [split; [discriminate | assumption] | constructor].
  - destruct (isspace c) eqn:Hc.
    + destruct word as [|a word]; simpl.
      * apply IH. constructor.
      * constructor; [split; [discriminate | assumption] |].
        apply IH. constructor.
    + apply IH. apply no_space_app; [assumption|].
      constructor; [assumption | constructor].
Qed.

Lemma split_words (s : str) : Forall is_word (split s).
Proof. apply split_from_words. constructor. Qed.

(** Reading a run without white space only extends the word being read. *)
Lemma split_from_run (w : str) :
  no_space w ->
  forall word s, split_from word (w ++ s) = split_from (word ++ w) s.
Proof.
  induction 1 as [|c w Hc _ IH]; intros word s; simpl.
  - rewrite app_nil_r. reflexivity.
  - rewrite Hc, IH, <- app_assoc. reflexivity.
Qed.

(** A space between two texts separates their words. *)
Lemma split_from_space (u v : str) :
  forall word,
    split_from word (u ++ space :: v) = split_from word u ++ split v.
Proof.
  induction u as [|c u IH]; intros word; simpl.
  - destruct (truthy word); reflexivity.
  - destruct (isspace c).
    + destruct (truthy word); simpl; rewrite IH; reflexivity.
    + apply IH.
Qed.

Lemma split_word (w : str) : is_word w -> split w = [w].
Proof.
  intros [Hne Hw]. unfold split.
  rewrite <- (app_nil_r w) at 1. rewrite split_from_run by assumption.
  simpl. destruct w; [contradiction | reflexivity].
Qed.

Lemma join_cons (sep p q : str) (rest : list str) :
  join sep (p :: q :: rest) = p ++ sep ++ join sep (q :: rest).
Proof. reflexivity. Qed.

Lemma join_snoc (sep : str) (parts : list str) (p : str) :
  join sep (parts ++ [p])
  = if truthy parts then join sep parts ++ sep ++ p else p.
Proof.
  induction parts as [|a parts IH]; [reflexivity|].
  destruct parts as [|b parts]; [reflexivity|].
  change ((a :: b :: parts) ++ [p]) with (a :: b :: (parts ++ [p])).
  rewrite !join_cons.
  change (b :: parts ++ [p]) with ((b :: parts) ++ [p]).
  rewrite IH. simpl truthy. cbv iota.
  rewrite <- !app_assoc. reflexivity.
Qed.

(** Splitting a single-space join gives the words of the pieces. *)
Lemma split_join (parts : list str) :
  split (join [space] parts) = flat_map split parts.
Proof.
  induction parts as [|p parts IH]; [reflexivity|].
  destruct parts as [|q parts].
  - simpl. rewrite app_nil_r. reflexivity.
  - rewrite join_cons. unfold split at 1.
    change ([space] ++ join [space] (q :: parts))
      with (space :: join [space] (q :: parts)).
    rewrite split_from_space. fold (split p). rewrite IH. reflexivity.
Qed.

Lemma split_join_words (ws : list str) :
  Forall is_word ws -> split (join [space] ws) = ws.
Proof.
  intros H. rewrite split_join.
  induction H as [|w ws Hw _ IH]; [reflexivity|].
  simpl. rewrite split_word by assumption. rewrite IH. reflexivity.
Qed.

Lemma split_all_space (s : str) :
  forallb isspace s = true -> split s = [].
Proof.
  unfold split. induction s as [|c s IH]; simpl; [reflexivity|].
  intros H. apply andb_true_iff in H. destruct H as [Hc Hs].
  rewrite Hc. apply IH. assumption.
Qed.

Lemma len_app {A : Type} (u v : list A) : len (u ++ v) = len u + len v.
Proof. unfold len. rewrite length_app. lia. Qed.

Lemma len_nonneg {A : Type} (u : list A) : 0 <= len u.
Proof. unfold len. lia. Qed.

Lemma len_join_snoc (parts : list str) (p : str) :
  len (join [space] (parts ++ [p]))
  = len (join [space] parts) + (len p + if truthy parts then 1 else 0).
Proof.
  rewrite join_snoc. destruct parts as [|a parts]; simpl truthy; cbv iota.
  - simpl. lia.
  - rewrite !len_app. change (len [space]) with 1. lia.
Qed.

(* ================================================================== *)
(** * The loop of [wrap_text] *)

Section WrapLoop.

Variable max_length : Z.

(** The rule for the loop: what one iteration keeps, the loop keeps. *)
Lemma wrap_loop_invariant (P : wrap_state -> Prop) (Q : str -> Prop) :
  (forall st w, P st -> Q w -> P (wrap_step max_length st w)) ->
  forall words st,
    Forall Q words -> P st -> P (wrap_loop max_length words st).
Proof.
  intros Hstep words. unfold wrap_loop.
  induction words as [|w words IH]; intros st Hq Hp; simpl; [assumption|].
  inversion Hq; subst. apply IH; [assumption|]. apply Hstep; assumption.
Qed.

Lemma wrap_step_length_tracked (st : wrap_state) (w : str) :
  length_tracked st -> length_tracked (wrap_step max_length st w).
Proof.
  unfold length_tracked, wrap_step. intros H.
  destruct (_ <=? _); simpl.
  - rewrite len_join_snoc, H. reflexivity.
  - reflexivity.
Qed.

Lemma wrap_loop_length_tracked (words : list str) (st : wrap_state) :
  length_tracked st -> length_tracked (wrap_loop max_length words st).
Proof.
  intros H.
  apply (wrap_loop_invariant length_tracked (fun _ => True)); auto.
  - intros; apply wrap_step_length_tracked; assumption.
  - apply Forall_forall; auto.
Qed.

Lemma in_flush (ls cur : list str) (l : str) :
  In l (flush ls cur) <-> In l ls \/ (cur <> [] /\ l = join [space] cur).
Proof.
  unfold flush. destruct cur as [|a cur]; simpl truthy; cbv iota.
  - split; [auto | intros [H | [H _]]; [assumption | contradiction]].
  - rewrite in_app_iff. simpl. split.
    + intros [H | [H | []]]; [left; assumption |].
      right; split; [discriminate | symmetry; assumption].
    + intros [H | [_ H]]; [left; assumption |].
      right; left; symmetry; assumption.
Qed.

Lemma flat_map_split_flush (ls cur : list str) :
  Forall is_word cur ->
  flat_map split (flush ls cur) = flat_map split ls ++ cur.
Proof.
  intros H. unfold flush. destruct (truthy cur) eqn:E.
  - rewrite flat_map_app. simpl. rewrite app_nil_r.
    rewrite split_join_words by assumption. reflexivity.
  - apply truthy_false in E. subst. rewrite app_nil_r. reflexivity.
Qed.

(** ** The width bound *)

Lemma wrap_step_within_budget (st : wrap_state) (w : str) :
  within_budget max_length st -> len w <= max_length ->
  within_budget max_length (wrap_step max_length st w).
Proof.
  intros (Ht & Hc & Hl) Hw. split; [|split].
  - apply wrap_step_length_tracked; assumption.
  - unfold wrap_step. destruct (_ <=? _) eqn:E; simpl; [|assumption].
    apply Z.leb_le in E. assumption.
  - unfold wrap_step. destruct (_ <=? _); simpl; [assumption|].
    unfold flush. destruct (truthy (current_line st)); [|assumption].
    apply Forall_app. split; [assumption|].
    constructor; [|constructor]. rewrite <- Ht. assumption.
Qed.

(** ** The words are kept, in order *)

Lemma wrap_loop_words (words : list str) :
  Forall is_word words ->
  forall st,
    Forall is_word (current_line st) ->
    let st' := wrap_loop max_length words st in
    Forall is_word (current_line st')
    /\ flat_map split (lines st') ++ current_line st'
       = (flat_map split (lines st) ++ current_line st) ++ words.
Proof.
  unfold wrap_loop.
  induction 1 as [|w words Hw _ IH]; intros st Hcur; simpl.
  - split; [assumption|]. rewrite app_nil_r. reflexivity.
  - assert (Hw1 : Forall is_word [w]) by (constructor; [assumption | constructor]).
    destruct (IH (wrap_step max_length st w)) as [H1 H2].
    + unfold wrap_step. destruct (_ <=? _); simpl; [|assumption].
      apply Forall_app. split; assumption.
    + split; [assumption|]. rewrite H2. unfold wrap_step.
      destruct (_ <=? _); simpl.
      * rewrite <- !app_assoc. reflexivity.
      * rewrite flat_map_split_flush by assumption.
        rewrite <- !app_assoc. reflexivity.
Qed.

(** ** The shape of the lines *)

Lemma flush_shaped (all ls cur : list str) :
  Forall (line_of all) ls -> incl cur all ->
  Forall (line_of all) (flush ls cur).
Proof.
  intros Hl Hc. unfold flush. destruct (truthy cur) eqn:E; [|assumption].
  apply Forall_app. split; [assumption|].
  constructor; [|constructor]. exists cur.
  split; [apply truthy_true; assumption | split; [assumption | reflexivity]].
Qed.

Lemma wrap_step_shaped (all : list str) (st : wrap_state) (w : str) :
  lines_shaped all st -> In w all ->
  lines_shaped all (wrap_step max_length st w).
Proof.
  intros [Hl Hc] Hw. unfold wrap_step, lines_shaped.
  destruct (_ <=? _); simpl.
  - split; [assumption|]. apply incl_app; [assumption|].
    intros x [<- | []]. assumption.
  - split; [apply flush_shaped; assumption|].
    intros x [<- | []]. assumption.
Qed.

(** ** A word over the budget *)

Section LongWord.

Variable w : str.
Hypothesis w_long : max_length < len w.

Lemma wrap_step_starts_alone (st : wrap_state) :
  length_tracked st -> current_line (wrap_step max_length st w) = [w].
Proof.
  unfold length_tracked, wrap_step. intros Ht.
  pose proof (len_nonneg (join [space] (current_line st))) as H0.
  destruct (_ <=? _) eqn:E; simpl; [|reflexivity].
  apply Z.leb_le in E. destruct (truthy (current_line st)); lia.
Qed.

Lemma wrap_step_stays_alone (st : wrap_state) (w' : str) :
  length_tracked st -> alone w st -> alone w (wrap_step max_length st w').
Proof.
  unfold length_tracked, alone, wrap_step. intros Ht [Hin | Hcur].
  - left. destruct (_ <=? _); simpl; [assumption|].
    apply in_flush. left. assumption.
  - left. rewrite Hcur in *. simpl in Ht.
    pose proof (len_nonneg w') as H0.
    destruct (_ <=? _) eqn:E; simpl.
    + apply Z.leb_le in E. simpl in E. lia.
    + apply in_flush. right. split; [discriminate | reflexivity].
Qed.

Lemma wrap_loop_stays_alone (words : list str) :
  forall st,
    length_tracked st -> alone w st ->
    alone w (wrap_loop max_length words st).
Proof.
  unfold wrap_loop.
  induction words as [|w' words IH]; intros st Ht Ha; simpl; [assumption|].
  apply IH.
  - apply wrap_step_length_tracked; assumption.
  - apply wrap_step_stays_alone; assumption.
Qed.

Lemma wrap_loop_alone (words : list str) :
  In w words ->
  forall st, length_tracked st -> alone w (wrap_loop max_length words st).
Proof.
  unfold wrap_loop.
  induction words as [|w' words IH]; intros Hin st Ht; [contradiction|].
  simpl. destruct Hin as [-> | Hin].
  - apply wrap_loop_stays_alone.
    + apply wrap_step_length_tracked; assumption.
    + right. apply wrap_step_starts_alone; assumption.
  - apply IH; [assumption|]. apply wrap_step_length_tracked; assumption.
Qed.

End LongWord.

End WrapLoop.

(* ================================================================== *)
(** * The lines of [wrap_text] *)

Lemma longest_word_bound (text : str) (max_length : Z) :
  longest_word text <= max_length ->
  Forall (fun w => len w <= max_length) (split text).
Proof.
  unfold longest_word. induction (split text) as [|w ws IH]; simpl; intros H.
  - constructor.
  - constructor; [lia | apply IH; lia].
Qed.

Lemma wrap_text_within (text : str) (max_length : Z) :
  0 <= max_length ->
  Forall (fun w => len w <= max_length) (split text) ->
  Forall (fun line => len line <= max_length) (wrap_text text max_length).
Proof.
  intros Hmax Hwords. unfold wrap_text.
  assert (H : within_budget max_length
                (wrap_loop max_length (split text) wrap_init)).
  { apply (wrap_loop_invariant max_length (within_budget max_length)
             (fun w => len w <= max_length)).
    - intros; apply wrap_step_within_budget; assumption.
    - assumption.
    - repeat split; simpl; [assumption | constructor]. }
  destruct H as (Ht & Hc & Hl). unfold flush.
  destruct (truthy _); [|assumption].
  apply Forall_app. split; [assumption|].
  constructor; [|constructor]. rewrite <- Ht. assumption.
Qed.

Lemma wrap_text_words (text : str) (max_length : Z) :
  flat_map split (wrap_text text max_length) = split text.
Proof.
  unfold wrap_text.
  destruct (wrap_loop_words max_length (split text) (split_words text)
              wrap_init) as [H1 H2]; [constructor|].
  rewrite flat_map_split_flush by assumption. rewrite H2. reflexivity.
Qed.

Lemma wrap_text_shaped (text : str) (max_length : Z) :
  Forall (line_of (split text)) (wrap_text text max_length).
Proof.
  unfold wrap_text.
  assert (H : lines_shaped (split text)
                (wrap_loop max_length (split text) wrap_init)).
  { apply (wrap_loop_invariant max_length (lines_shaped (split text))
             (fun w => In w (split text))).
    - intros; apply wrap_step_shaped; assumption.
    - apply Forall_forall. auto.
    - split; [constructor | intros x []]. }
  destruct H as [Hl Hc]. apply flush_shaped; assumption.
Qed.

Lemma wrap_text_long_word (text : str) (max_length : Z) (w : str) :
  In w (split text) -> max_length < len w ->
  In w (wrap_text text max_length).
Proof.
  intros Hin Hlong. unfold wrap_text. apply in_flush.
  destruct (wrap_loop_alone max_length w Hlong (split text) Hin wrap_init)
    as [H | H]; [reflexivity | left; assumption |].
  right. rewrite H. split; [discriminate | reflexivity].
Qed.

Lemma not_space_char (c : char) : isspace c = false -> (c =? space)%N = false.
Proof.
  intros H. destruct (N.eqb_spec c space) as [-> | _]; [|reflexivity].
  rewrite isspace_space in H. discriminate.
Qed.

Lemma join_first (ws : list str) (w : str) :
  is_word w ->
  exists c rest, join [space] (w :: ws) = c :: rest /\ isspace c = false.
Proof.
  intros [Hne Hw]. destruct w as [|c w]; [contradiction|].
  inversion Hw; subst.
  destruct ws as [|q ws]; simpl; eexists; eexists; split;
    try reflexivity; assumption.
Qed.

Lemma join_last (ws : list str) (w : str) :
  is_word w ->
  exists c front,
    join [space] (ws ++ [w]) = front ++ [c] /\ isspace c = false.
Proof.
  intros [Hne Hw].
  destruct (exists_last Hne) as (front & c & ->).
  apply Forall_app in Hw. destruct Hw as [_ Hc]. inversion Hc; subst.
  rewrite join_snoc. destruct (truthy ws).
  - exists c, (join [space] ws ++ [space] ++ front).
    rewrite <- !app_assoc. split; [reflexivity | assumption].
  - exists c, front. split; [reflexivity | assumption].
Qed.

Lemma has_double_space_skip (w t : str) :
  no_space w -> has_double_space (w ++ t) = has_double_space t.
Proof.
  induction 1 as [|c w Hc _ IH]; [reflexivity|].
  change ((c :: w) ++ t) with (c :: (w ++ t)).
  apply not_space_char in Hc.
  simpl. destruct (w ++ t) as [|d r] eqn:E.
  - rewrite <- IH. reflexivity.
  - rewrite Hc. simpl. assumption.
Qed.

Lemma join_no_double_space (ws : list str) :
  Forall is_word ws -> has_double_space (join [space] ws) = false.
Proof.
  induction 1 as [|w ws Hw Hws IH]; [reflexivity|].
  destruct ws as [|q ws].
  - simpl. rewrite <- (app_nil_r w). destruct Hw as [_ Hw].
    rewrite has_double_space_skip by assumption. reflexivity.
  - rewrite join_cons. destruct Hw as [_ Hw].
    rewrite has_double_space_skip by assumption.
    inversion Hws as [|? ? Hq _]; subst.
    destruct (join_first ws q Hq) as (c & rest & E & Hc).
    change ([space] ++ join [space] (q :: ws))
      with (space :: join [space] (q :: ws)).
    rewrite E in *. apply not_space_char in Hc.
    change (has_double_space (space :: c :: rest))
      with (((space =? space)%N && (c =? space)%N)
            || has_double_space (c :: rest)).
    rewrite Hc, IH. reflexivity.
Qed.

Lemma line_of_words (all : list str) (l : str) :
  Forall is_word all -> line_of all l ->
  exists ws, ws <> [] /\ Forall is_word ws /\ l = join [space] ws.
Proof.
  intros Hall (ws & Hne & Hincl & ->). exists ws.
  split; [assumption | split; [|reflexivity]].
  apply Forall_forall. intros x Hx.
  apply (proj1 (Forall_forall _ _) Hall). apply Hincl. assumption.
Qed.

(* ================================================================== *)
(** * Properties of [wrap_text] *)

(** C1.  For a non-empty text and a positive [max_length] that is at least
    the length of the longest whitespace-delimited word of the text, every
    line of [wrap_text text max_length] has length at most [max_length]. *)
Theorem wrap_text_lines_within_max_length (text : str) (max_length : Z) :
  text <> [] ->
  0 < max_length ->
  longest_word text <= max_length ->
  Forall (fun line => len line <= max_length) (wrap_text text max_length).
Proof.
  intros _ Hpos Hlong. apply wrap_text_within; [lia|].
  apply longest_word_bound. assumption.
Qed.

Lemma wrap_text_lines_within_max_length_witness :
  Forall (fun line => len line <= 10)
    (wrap_text (lit "the quick brown fox jumps") 10).
Proof.
  apply wrap_text_lines_within_max_length.
  - discriminate.
  - lia.
  - vm_compute. discriminate.
Defined.

(** C2.  For every text and every positive [max_length], joining the lines
    of [wrap_text text max_length] with single spaces and splitting the
    result on white space gives the word sequence of the text itself. *)
Theorem wrap_text_join_split_roundtrip (text : str) (max_length : Z) :
  0 < max_length ->
  split (join [space] (wrap_text text max_length)) = split text.
Proof.
  intros _. rewrite split_join. apply wrap_text_words.
Qed.

Lemma wrap_text_join_split_roundtrip_witness :
  split (join [space] (wrap_text (lit "  the quick  brown fox jumps ") 10))
  = split (lit "  the quick  brown fox jumps ").
Proof.
  apply wrap_text_join_split_roundtrip. lia.
Defined.

(** C6.  A word longer than [max_length] is not split: it is a line of
    the output by itself, whatever surrounds it; and
    [wrap_text("supercalifragilisticexpialidocious", 10)] is the list of that
    one word. *)
Theorem wrap_text_long_word_own_line :
  (forall (text : str) (max_length : Z) (w : str),
      In w (split text) -> max_length < len w ->
      In w (wrap_text text max_length))
  /\ wrap_text (lit "supercalifragilisticexpialidocious") 10
     = [lit "supercalifragilisticexpialidocious"].
Proof.
  split.
  - apply wrap_text_long_word.
  - vm_compute. reflexivity.
Qed.

Lemma wrap_text_long_word_own_line_witness :
  In (lit "incomprehensibilities")
     (wrap_text (lit "a few incomprehensibilities in it") 10).
Proof.
  apply (proj1 wrap_text_long_word_own_line).
  - vm_compute. right. right. left. reflexivity.
  - vm_compute. reflexivity.
Defined.

(** C7.  [wrap_text("", N)] is the empty list for every positive [N], and
    so is [wrap_text] of a text that holds white space only. *)
Theorem wrap_text_blank :
  (forall N : Z, 0 < N -> wrap_text [] N = [])
  /\ (forall (text : str) (N : Z),
         0 < N -> forallb isspace text = true -> wrap_text text N = []).
Proof.
  split.
  - intros N _. reflexivity.
  - intros text N _ H. unfold wrap_text.
    rewrite (split_all_space text H). reflexivity.
Qed.

Lemma wrap_text_blank_witness :
  wrap_text [] 80 = []
  /\ wrap_text (lit "   " ++ [newline; 9%N; 160%N]) 80 = [].
Proof.
  split.
  - apply (proj1 wrap_text_blank). lia.
  - apply (proj2 wrap_text_blank); [lia | vm_compute; reflexivity].
Defined.

(** C9.  For every text and every integer [max_length], a line of
    [wrap_text text max_length] is not empty, begins and ends with a
    character that is not white space, has no two adjacent spaces, and is
    the single-space join of one or more words of the text. *)
Theorem wrap_text_line_shape (text : str) (max_length : Z) (line : str) :
  In line (wrap_text text max_length) ->
  line <> []
  /\ option_map isspace (first_char line) = Some false
  /\ option_map isspace (last_char line) = Some false
  /\ has_double_space line = false
  /\ line_of (split text) line.
Proof.
  intros Hin.
  pose proof (proj1 (Forall_forall _ _)
                (wrap_text_shaped text max_length) line Hin) as Hline.
  destruct (line_of_words _ _ (split_words text) Hline)
    as (ws & Hne & Hws & ->).
  assert (Hfirst : exists c rest,
             join [space] ws = c :: rest /\ isspace c = false).
  { destruct ws as [|w ws]; [contradiction|].
    inversion Hws; subst. apply join_first. assumption. }
  assert (Hlast : exists c front,
             join [space] ws = front ++ [c] /\ isspace c = false).
  { destruct (exists_last Hne) as (front & w & ->).
    apply Forall_app in Hws. destruct Hws as [_ Hw]. inversion Hw; subst.
    apply join_last. assumption. }
  destruct Hfirst as (c & rest & E1 & Hc).
  destruct Hlast as (d & front & E2 & Hd).
  repeat split.
  - rewrite E1. discriminate.
  - rewrite E1. simpl. rewrite Hc. reflexivity.
  - unfold last_char. rewrite E2, rev_app_distr. simpl. rewrite Hd.
    reflexivity.
  - apply join_no_double_space. assumption.
  - assumption.
Qed.

Lemma wrap_text_line_shape_witness :
  lit "brown fox" <> []
  /\ option_map isspace (first_char (lit "brown fox")) = Some false
  /\ option_map isspace (last_char (lit "brown fox")) = Some false
  /\ has_double_space (lit "brown fox") = false
  /\ line_of (split (lit " the  quick brown fox jumps")) (lit "brown fox").
Proof.
  apply (wrap_text_line_shape (lit " the  quick brown fox jumps") 10).
  vm_compute. right. left. reflexivity.
Defined.

(* ================================================================== *)
(** * Reading what [generate_quote_svg] writes *)

Module SvgFacts.

Import Svg.

Lemma lacks_app (c : char) (u v : str) :
  lacks c (u ++ v) = lacks c u && lacks c v.
Proof. apply forallb_app. Qed.

Lemma lacks_cons (c b : char) (u : str) :
  b <> c -> lacks c u = true -> lacks c (b :: u) = true.
Proof.
  intros Hb Hu. unfold lacks in *. cbn [forallb]. rewrite Hu, andb_true_r.
  apply negb_true_iff. apply N.eqb_neq. assumption.
Qed.

Lemma digits_lack (c : char) (d : Decimal.uint) :
  numeric c = false -> lacks c (digits d) = true.
Proof.
  intros Hc.
  induction d as [|d IH|d IH|d IH|d IH|d IH|d IH|d IH|d IH|d IH|d IH];
    cbn [digits]; [reflexivity | ..];
    (apply lacks_cons; [intros <-; discriminate | assumption]).
Qed.

Lemma str_of_int_lacks (c : char) (n : Z) :
  numeric c = false -> lacks c (str_of_int n) = true.
Proof.
  intros Hc. unfold str_of_int. destruct (Z.to_int n) as [d | d].
  - apply digits_lack. assumption.
  - apply lacks_cons; [intros <-; discriminate |].
    apply digits_lack. assumption.
Qed.

Lemma strip_prefix_app (p s : str) : strip_prefix p (p ++ s) = Some s.
Proof.
  induction p as [|a p IH]; simpl; [reflexivity|].
  rewrite N.eqb_refl. assumption.
Qed.

Lemma strip_suffix_app (p s : str) : strip_suffix p (s ++ p) = Some s.
Proof.
  unfold strip_suffix. rewrite rev_app_distr, strip_prefix_app. simpl.
  rewrite rev_involutive. reflexivity.
Qed.

Lemma break_at_app (c : char) (u v : str) :
  lacks c u = true -> break_at c (u ++ c :: v) = Some (u, v).
Proof.
  induction u as [|b u IH]; simpl; intros H.
  - rewrite N.eqb_refl. reflexivity.
  - apply andb_true_iff in H. destruct H as [Hb Hu].
    apply negb_true_iff in Hb. rewrite Hb, (IH Hu). reflexivity.
Qed.

Lemma break_at_none (c : char) (u : str) :
  lacks c u = true -> break_at c u = None.
Proof.
  induction u as [|b u IH]; simpl; intros H; [reflexivity|].
  apply andb_true_iff in H. destruct H as [Hb Hu].
  apply negb_true_iff in Hb. rewrite Hb, (IH Hu). reflexivity.
Qed.

(** A pattern is not found where its first character does not occur. *)
Lemma find_after_skip (a : char) (p u v : str) :
  lacks a u = true -> find_after (a :: p) (u ++ v) = find_after (a :: p) v.
Proof.
  induction u as [|b u IH]; intros H; [reflexivity|].
  simpl in H. apply andb_true_iff in H. destruct H as [Hb Hu].
  apply negb_true_iff in Hb. rewrite N.eqb_sym in Hb.
  change (find_after (a :: p) ((b :: u) ++ v))
    with (match (if (a =? b)%N then strip_prefix p (u ++ v) else None) with
          | Some r => Some r
          | None => find_after (a :: p) (u ++ v)
          end).
  rewrite Hb. apply IH. assumption.
Qed.

Lemma str_of_int_width : str_of_int SVG_WIDTH = lit "700".
Proof. vm_compute. reflexivity. Qed.

Lemma str_of_int_quote_font : str_of_int SVG_QUOTE_FONT_SIZE = lit "16".
Proof. vm_compute. reflexivity. Qed.

Lemma str_of_int_author_font : str_of_int SVG_AUTHOR_FONT_SIZE = lit "14".
Proof. vm_compute. reflexivity. Qed.

(** Reading an attribute: compute along the literal text, step over a
    number, read up to the closing quote. *)
Ltac read_attribute :=
  unfold attribute, fattr; rewrite <- ?app_assoc; simpl;
  repeat (rewrite find_after_skip
            by (apply str_of_int_lacks; reflexivity); simpl);
  try (rewrite break_at_app by (apply str_of_int_lacks; reflexivity));
  reflexivity.

Lemma svg_attrs_width (h : Z) :
  attribute "width" (svg_attrs h) = Some (lit "700").
Proof.
  unfold svg_attrs. rewrite str_of_int_width. read_attribute.
Qed.

Lemma svg_attrs_height (h : Z) :
  attribute "height" (svg_attrs h) = Some (str_of_int h).
Proof.
  unfold svg_attrs. rewrite str_of_int_width. read_attribute.
Qed.

Lemma quote_attrs_lack_gt (y : Z) : lacks 62%N (quote_attrs y) = true.
Proof.
  unfold quote_attrs, fattr. rewrite !lacks_app.
  rewrite !str_of_int_lacks by reflexivity. reflexivity.
Qed.

Lemma author_attrs_lack_gt (y : Z) : lacks 62%N (author_attrs y) = true.
Proof.
  unfold author_attrs, fattr. rewrite !lacks_app.
  rewrite !str_of_int_lacks by reflexivity. reflexivity.
Qed.

Lemma svg_attrs_lack_gt (h : Z) : lacks 62%N (svg_attrs h) = true.
Proof.
  unfold svg_attrs, fattr. rewrite !lacks_app.
  rewrite !str_of_int_lacks by reflexivity. reflexivity.
Qed.

Lemma quote_attrs_lack_lt (y : Z) : lacks 60%N (quote_attrs y) = true.
Proof.
  unfold quote_attrs, fattr. rewrite !lacks_app.
  rewrite !str_of_int_lacks by reflexivity. reflexivity.
Qed.

Lemma author_attrs_lack_lt (y : Z) : lacks 60%N (author_attrs y) = true.
Proof.
  unfold author_attrs, fattr. rewrite !lacks_app.
  rewrite !str_of_int_lacks by reflexivity. reflexivity.
Qed.

Lemma svg_attrs_lack_lt (h : Z) : lacks 60%N (svg_attrs h) = true.
Proof.
  unfold svg_attrs, fattr. rewrite !lacks_app.
  rewrite !str_of_int_lacks by reflexivity. reflexivity.
Qed.

Lemma quote_attrs_lack_newline (y : Z) :
  lacks newline (quote_attrs y) = true.
Proof.
  unfold quote_attrs, fattr. rewrite !lacks_app.
  rewrite !str_of_int_lacks by reflexivity. reflexivity.
Qed.

Lemma author_attrs_lack_newline (y : Z) :
  lacks newline (author_attrs y) = true.
Proof.
  unfold author_attrs, fattr. rewrite !lacks_app.
  rewrite !str_of_int_lacks by reflexivity. reflexivity.
Qed.

Lemma svg_open_lacks_newline (h : Z) : lacks newline (svg_open h) = true.
Proof.
  unfold svg_open, svg_attrs, fattr. rewrite !lacks_app.
  rewrite !str_of_int_lacks by reflexivity. reflexivity.
Qed.

Lemma svg_rect_lacks_newline (h : Z) : lacks newline (svg_rect h) = true.
Proof.
  unfold svg_rect, fattr. rewrite !lacks_app.
  rewrite !str_of_int_lacks by reflexivity. reflexivity.
Qed.

Lemma svg_rect_lacks_lt (h : Z) :
  lacks 60%N
    (fattr "width" (str_of_int SVG_WIDTH) ++ fattr "height" (str_of_int h)
     ++ fattr "fill" (lit "none") ++ lit "/>") = true.
Proof.
  unfold fattr. rewrite !lacks_app.
  rewrite !str_of_int_lacks by reflexivity. reflexivity.
Qed.

(** ** Reading tag by tag *)

Lemma scan_cons {A : Type} (here : str -> option A) (c : char) (s : str) :
  scan here (c :: s)
  = match here (c :: s) with
    | Some a => a :: scan here s
    | None => scan here s
    end.
Proof. reflexivity. Qed.

Lemma scan_found {A : Type} (here : str -> option A) (s : str) (c : char)
  (s' : str) (a : A) :
  s = c :: s' -> here s = Some a -> scan here s = a :: scan here s'.
Proof. intros -> H. rewrite scan_cons, H. reflexivity. Qed.

Lemma open_here_not_tag (tag : string) (c : char) (s : str) :
  c <> 60%N -> open_here tag (c :: s) = None.
Proof.
  intros H. unfold open_here.
  change (lit "<" ++ lit tag) with (60%N :: lit tag). cbn [strip_prefix].
  destruct (N.eqb_spec 60 c) as [E | _]; [congruence | reflexivity].
Qed.

Lemma text_here_not_tag (c : char) (s : str) :
  c <> 60%N -> text_here (c :: s) = None.
Proof.
  intros H. unfold text_here. rewrite open_here_not_tag by assumption.
  reflexivity.
Qed.

(** No text element begins where there is no [<]. *)
Lemma text_elements_skip (u v : str) :
  lacks 60%N u = true -> text_elements (u ++ v) = text_elements v.
Proof.
  unfold text_elements. induction u as [|c u IH]; intros H; [reflexivity|].
  unfold lacks in H. cbn [forallb] in H.
  apply andb_true_iff in H. destruct H as [Hc Hu].
  apply negb_true_iff, N.eqb_neq in Hc.
  change ((c :: u) ++ v) with (c :: (u ++ v)).
  rewrite scan_cons, text_here_not_tag by assumption. apply IH. assumption.
Qed.

(** A tag that is not an opening [<text] holds no text element. *)
Lemma text_elements_other_tag (c : char) (u v : str) :
  c <> 116%N -> lacks 60%N (c :: u) = true ->
  text_elements (60%N :: (c :: u) ++ v) = text_elements v.
Proof.
  intros Hc Hu. unfold text_elements. rewrite scan_cons.
  match goal with
  | |- context [text_here ?x] => assert (E : text_here x = None)
  end.
  { unfold text_here, open_here.
    change (lit "<" ++ lit "text") with (60%N :: 116%N :: lit "ext").
    cbn [strip_prefix app]. rewrite N.eqb_refl.
    destruct (N.eqb_spec 116 c) as [E | _]; [congruence | reflexivity]. }
  rewrite E. apply (text_elements_skip (c :: u) v Hu).
Qed.

Lemma text_here_row (attrs content v : str) :
  hd_error attrs = Some space ->
  lacks 62%N attrs = true ->
  lacks 60%N content = true ->
  text_here (lit "<text" ++ attrs ++ 62%N :: content ++ lit "</text>" ++ v)
  = Some {| row_y := attribute "y" attrs;
            row_font_size := attribute "font-size" attrs;
            row_anchor := attribute "text-anchor" attrs;
            row_style := attribute "font-style" attrs;
            row_content := content |}.
Proof.
  intros Hhd Hgt Hlt. unfold text_here, open_here.
  change (strip_prefix (lit "<" ++ lit "text")
            (lit "<text" ++ attrs ++ 62%N :: content ++ lit "</text>" ++ v))
    with (Some (attrs ++ 62%N :: content ++ lit "</text>" ++ v)).
  cbv beta iota.
  destruct attrs as [|a attrs]; [discriminate|].
  injection Hhd as ->.
  change ((space :: attrs) ++ 62%N :: content ++ lit "</text>" ++ v)
    with (space :: (attrs ++ 62%N :: content ++ lit "</text>" ++ v)).
  cbv beta iota. rewrite N.eqb_refl. cbn [orb].
  change (space :: (attrs ++ 62%N :: content ++ lit "</text>" ++ v))
    with ((space :: attrs) ++ 62%N :: content ++ lit "</text>" ++ v).
  rewrite break_at_app by assumption.
  change (content ++ lit "</text>" ++ v)
    with (content ++ 60%N :: lit "/text>" ++ v).
  rewrite break_at_app by assumption.
  rewrite strip_prefix_app. reflexivity.
Qed.

(** A well-formed text row is one text element. *)
Lemma text_elements_row (attrs content v : str) :
  hd_error attrs = Some space ->
  lacks 62%N attrs = true ->
  lacks 60%N attrs = true ->
  lacks 60%N content = true ->
  text_elements
    (lit "<text" ++ attrs ++ 62%N :: content ++ lit "</text>" ++ v)
  = {| row_y := attribute "y" attrs;
       row_font_size := attribute "font-size" attrs;
       row_anchor := attribute "text-anchor" attrs;
       row_style := attribute "font-style" attrs;
       row_content := content |}
    :: text_elements v.
Proof.
  intros Hhd Hgt Hlt Hc.
  pose proof (text_here_row attrs content v Hhd Hgt Hc) as Hhere.
  unfold text_elements.
  rewrite (scan_found text_here
             (lit "<text" ++ attrs ++ 62%N :: content ++ lit "</text>" ++ v)
             60%N
             (lit "text" ++ attrs ++ 62%N :: content ++ lit "</text>" ++ v)
             _ eq_refl Hhere).
  f_equal.
  replace (lit "text" ++ attrs ++ 62%N :: content ++ lit "</text>" ++ v)
    with ((lit "text" ++ attrs ++ 62%N :: content)
          ++ 60%N :: (47%N :: lit "text>") ++ v)
    by (rewrite <- !app_assoc; reflexivity).
  fold (text_elements
          ((lit "text" ++ attrs ++ 62%N :: content)
           ++ 60%N :: (47%N :: lit "text>") ++ v)).
  rewrite text_elements_skip.
  - apply text_elements_other_tag; [discriminate | reflexivity].
  - rewrite !lacks_app, Hlt.
    change (lacks 60%N (62%N :: content)) with (lacks 60%N content).
    rewrite Hc. reflexivity.
Qed.

Lemma quote_row_eq (y : Z) (line v : str) :
  quote_row y line ++ v
  = lit "    "
    ++ lit "<text" ++ quote_attrs y ++ 62%N :: ([dquote] ++ line ++ [dquote])
    ++ lit "</text>" ++ v.
Proof. unfold quote_row. rewrite <- !app_assoc. reflexivity. Qed.

Lemma author_row_eq (y : Z) (author v : str) :
  author_row y author ++ v
  = lit "    "
    ++ lit "<text" ++ author_attrs y ++ 62%N :: ([em_dash; space] ++ author)
    ++ lit "</text>" ++ v.
Proof. unfold author_row. rewrite <- !app_assoc. reflexivity. Qed.

Lemma quote_attrs_view (y : Z) (content : str) :
  {| row_y := attribute "y" (quote_attrs y);
     row_font_size := attribute "font-size" (quote_attrs y);
     row_anchor := attribute "text-anchor" (quote_attrs y);
     row_style := attribute "font-style" (quote_attrs y);
     row_content := content |}
  = {| row_y := Some (str_of_int y);
       row_font_size := Some (lit "16");
       row_anchor := Some (lit "middle");
       row_style := Some (lit "italic");
       row_content := content |}.
Proof.
  unfold quote_attrs. rewrite str_of_int_quote_font.
  repeat f_equal; read_attribute.
Qed.

Lemma author_attrs_view (y : Z) (content : str) :
  {| row_y := attribute "y" (author_attrs y);
     row_font_size := attribute "font-size" (author_attrs y);
     row_anchor := attribute "text-anchor" (author_attrs y);
     row_style := attribute "font-style" (author_attrs y);
     row_content := content |}
  = {| row_y := Some (str_of_int y);
       row_font_size := Some (lit "14");
       row_anchor := Some (lit "middle");
       row_style := None;
       row_content := content |}.
Proof.
  unfold author_attrs. rewrite str_of_int_author_font.
  repeat f_equal; read_attribute.
Qed.

Lemma lacks_quoted (c : char) (line : str) :
  c <> dquote -> lacks c line = true ->
  lacks c ([dquote] ++ line ++ [dquote]) = true.
Proof.
  intros Hc H. rewrite !lacks_app, H.
  unfold lacks. cbn [forallb].
  destruct (N.eqb_spec dquote c) as [E | _]; [congruence | reflexivity].
Qed.

Lemma text_elements_quote_row (y : Z) (line v : str) :
  lacks 60%N line = true ->
  text_elements (quote_row y line ++ v)
  = quote_view y line :: text_elements v.
Proof.
  intros H. rewrite quote_row_eq.
  rewrite (text_elements_skip (lit "    ")) by reflexivity.
  rewrite text_elements_row.
  - rewrite quote_attrs_view. reflexivity.
  - reflexivity.
  - apply quote_attrs_lack_gt.
  - apply quote_attrs_lack_lt.
  - apply lacks_quoted; [discriminate | assumption].
Qed.

Lemma text_elements_author_row (y : Z) (author v : str) :
  lacks 60%N author = true ->
  text_elements (author_row y author ++ v)
  = author_view y author :: text_elements v.
Proof.
  intros H. rewrite author_row_eq.
  rewrite (text_elements_skip (lit "    ")) by reflexivity.
  rewrite text_elements_row.
  - rewrite author_attrs_view. reflexivity.
  - reflexivity.
  - apply author_attrs_lack_gt.
  - apply author_attrs_lack_lt.
  - rewrite lacks_app, H. reflexivity.
Qed.

Lemma text_elements_svg_open (h : Z) (v : str) :
  text_elements (svg_open h ++ v) = text_elements v.
Proof.
  change (svg_open h ++ v)
    with (60%N :: (115%N :: lit "vg" ++ svg_attrs h ++ lit ">") ++ v).
  apply text_elements_other_tag; [discriminate|].
  change (115%N :: lit "vg" ++ svg_attrs h ++ lit ">")
    with (lit "svg" ++ svg_attrs h ++ lit ">").
  rewrite !lacks_app, svg_attrs_lack_lt. reflexivity.
Qed.

Lemma text_elements_svg_rect (h : Z) (v : str) :
  text_elements (svg_rect h ++ v) = text_elements v.
Proof.
  change (svg_rect h ++ v)
    with (lit "  "
          ++ 60%N :: (114%N :: lit "ect"
                      ++ fattr "width" (str_of_int SVG_WIDTH)
                      ++ fattr "height" (str_of_int h)
                      ++ fattr "fill" (lit "none") ++ lit "/>") ++ v).
  rewrite (text_elements_skip (lit "  ")) by reflexivity.
  apply text_elements_other_tag; [discriminate|].
  change (114%N :: lit "ect"
          ++ fattr "width" (str_of_int SVG_WIDTH)
          ++ fattr "height" (str_of_int h)
          ++ fattr "fill" (lit "none") ++ lit "/>")
    with (lit "rect"
          ++ fattr "width" (str_of_int SVG_WIDTH)
          ++ fattr "height" (str_of_int h)
          ++ fattr "fill" (lit "none") ++ lit "/>").
  rewrite lacks_app, svg_rect_lacks_lt. reflexivity.
Qed.

Lemma quote_attrs_y (y : Z) :
  attribute "y" (quote_attrs y) = Some (str_of_int y).
Proof. unfold quote_attrs. read_attribute. Qed.

Lemma author_attrs_y (y : Z) :
  attribute "y" (author_attrs y) = Some (str_of_int y).
Proof. unfold author_attrs. read_attribute. Qed.

Lemma open_tag_text_row (attrs rest : str) :
  lacks 62%N attrs = true ->
  open_tag "text" (lit "    <text" ++ attrs ++ 62%N :: rest) = Some attrs.
Proof.
  intros H. unfold open_tag.
  change (strip_prefix (lit "<" ++ lit "text")
            (drop_spaces (lit "    <text" ++ attrs ++ 62%N :: rest)))
    with (Some (attrs ++ 62%N :: rest)).
  cbv beta iota. rewrite break_at_app by assumption. reflexivity.
Qed.

Lemma text_elements_g_open (v : str) :
  text_elements (lit "  <g>" ++ v) = text_elements v.
Proof.
  change (lit "  <g>" ++ v) with (lit "  " ++ 60%N :: (103%N :: lit ">") ++ v).
  rewrite (text_elements_skip (lit "  ")) by reflexivity.
  apply text_elements_other_tag; [discriminate | reflexivity].
Qed.

Lemma text_elements_closing :
  text_elements ([newline] ++ lit "  </g>" ++ [newline] ++ lit "</svg>") = [].
Proof. reflexivity. Qed.

(** ** Reading line by line *)

Lemma lines_from_run (u : str) :
  lacks newline u = true ->
  forall cur v, lines_from cur (u ++ v) = lines_from (cur ++ u) v.
Proof.
  induction u as [|c u IH]; intros H cur v.
  - rewrite app_nil_r. reflexivity.
  - unfold lacks in H. cbn [forallb] in H.
    apply andb_true_iff in H. destruct H as [Hc Hu].
    apply negb_true_iff in Hc.
    change ((c :: u) ++ v) with (c :: (u ++ v)). cbn [lines_from].
    rewrite Hc, (IH Hu), <- app_assoc. reflexivity.
Qed.

Lemma doc_lines_piece (p v : str) :
  lacks newline p = true ->
  doc_lines (p ++ newline :: v) = p :: doc_lines v.
Proof.
  intros H. unfold doc_lines. rewrite (lines_from_run p H).
  cbn [lines_from app]. rewrite N.eqb_refl. reflexivity.
Qed.

Lemma lines_from_head (v : str) :
  forall cur, exists l ls, lines_from cur v = (cur ++ l) :: ls.
Proof.
  induction v as [|c v IH]; intros cur.
  - exists [], []. simpl. rewrite app_nil_r. reflexivity.
  - cbn [lines_from]. destruct (c =? newline)%N.
    + exists [], (lines_from [] v). rewrite app_nil_r. reflexivity.
    + destruct (IH (cur ++ [c])) as (l & ls & E).
      exists (c :: l), ls. rewrite E, <- app_assoc. reflexivity.
Qed.

Lemma open_tag_svg_open (h : Z) (rest : str) :
  open_tag "svg" (svg_open h ++ rest) = Some (svg_attrs h).
Proof.
  unfold open_tag, svg_open. rewrite <- !app_assoc.
  change (strip_prefix (lit "<" ++ lit "svg")
            (drop_spaces (lit "<svg" ++ svg_attrs h ++ lit ">" ++ rest)))
    with (Some (svg_attrs h ++ 62%N :: rest)).
  cbv beta iota. rewrite break_at_app by apply svg_attrs_lack_gt. reflexivity.
Qed.

End SvgFacts.

(* ================================================================== *)
(** * The loop of [generate_quote_svg] *)

Lemma length_mapi_from {A B : Type} (f : nat -> A -> B) (l : list A) :
  forall i, length (mapi_from f i l) = length l.
Proof.
  induction l as [|x l IH]; intros i; simpl; [reflexivity|].
  rewrite IH. reflexivity.
Qed.

Lemma nth_error_mapi_from {A B : Type} (f : nat -> A -> B) (l : list A) :
  forall i n,
    nth_error (mapi_from f i l) n = option_map (f (i + n)%nat) (nth_error l n).
Proof.
  induction l as [|x l IH]; intros i n.
  - destruct n; reflexivity.
  - destruct n as [|n]; simpl.
    + rewrite Nat.add_0_r. reflexivity.
    + rewrite IH. rewrite Nat.add_succ_r. reflexivity.
Qed.

Lemma render_loop (ls : list str) :
  forall (k : nat) (st : svg_state),
    y_offset st = row_position k ->
    fold_left render_step ls st
    = {| svg_parts :=
           svg_parts st
           ++ mapi_from (fun i l => quote_row (row_position i) l) k ls;
         y_offset := row_position (k + length ls) |}.
Proof.
  induction ls as [|l ls IH]; intros k st Hy.
  - simpl. rewrite app_nil_r, Nat.add_0_r, <- Hy. destruct st; reflexivity.
  - simpl fold_left. rewrite (IH (S k)).
    + simpl. rewrite <- app_assoc, Hy, Nat.add_succ_r. reflexivity.
    + simpl. rewrite Hy. unfold row_position, SVG_LINE_HEIGHT. lia.
Qed.

(** The list that [generate_quote_svg] joins, written out. *)
Lemma final_svg_parts_eq (quote_text author : str) :
  let ls := wrap_text quote_text MAX_LINE_LENGTH in
  let h := 20 * len ls + 100 in
  final_svg_parts quote_text author
  = [svg_open h; svg_rect h; lit "  <g>"]
    ++ mapi_from (fun i l => quote_row (row_position i) l) 0 ls
    ++ [author_row (row_position (length ls) + 20) author;
        lit "  </g>"; lit "</svg>"].
Proof.
  intros ls h. unfold final_svg_parts. fold ls.
  replace (len ls * SVG_LINE_HEIGHT + 60 + SVG_PADDING * 2) with h
    by (unfold h, SVG_LINE_HEIGHT, SVG_PADDING; lia).
  rewrite (render_loop ls 0) by reflexivity.
  simpl svg_parts. simpl y_offset. rewrite <- !app_assoc. reflexivity.
Qed.

(** ** The returned string, piece by piece *)

Lemma join_rows (rows : list str) (p : str) (rest : list str) :
  join [newline] (rows ++ p :: rest)
  = flat_map (fun r => r ++ [newline]) rows ++ join [newline] (p :: rest).
Proof.
  induction rows as [|r rows IH]; [reflexivity|].
  change ((r :: rows) ++ p :: rest) with (r :: (rows ++ p :: rest)).
  destruct (rows ++ p :: rest) as [|x xs] eqn:E.
  - destruct rows; discriminate.
  - rewrite join_cons, IH. cbn [flat_map].
    rewrite <- !app_assoc. reflexivity.
Qed.

Lemma generate_quote_svg_flat (quote_text author : str) :
  let ls := wrap_text quote_text MAX_LINE_LENGTH in
  let h := 20 * len ls + 100 in
  generate_quote_svg quote_text author
  = svg_open h ++ [newline] ++ svg_rect h ++ [newline]
    ++ lit "  <g>" ++ [newline]
    ++ flat_map (fun r => r ++ [newline])
         (mapi_from (fun i l => quote_row (row_position i) l) 0 ls)
    ++ author_row (row_position (length ls) + 20) author
    ++ [newline] ++ lit "  </g>" ++ [newline] ++ lit "</svg>".
Proof.
  intros ls h. unfold generate_quote_svg. rewrite final_svg_parts_eq.
  fold ls h. cbn [app]. rewrite !join_cons.
  destruct (mapi_from (fun i l => quote_row (row_position i) l) 0 ls
            ++ [author_row (row_position (length ls) + 20) author;
                lit "  </g>"; lit "</svg>"]) as [|x xs] eqn:E.
  - destruct (mapi_from _ 0 ls); discriminate.
  - rewrite join_cons, <- E, join_rows, !join_cons. reflexivity.
Qed.

Lemma split_from_lacks (c : char) (s : str) :
  forall word,
    Svg.lacks c word = true -> Svg.lacks c s = true ->
    Forall (fun w => Svg.lacks c w = true) (split_from word s).
Proof.
  induction s as [|b s IH]; intros word Hw Hs; cbn [split_from].
  - destruct (truthy word); [constructor; [assumption|] |]; constructor.
  - unfold Svg.lacks in Hs. cbn [forallb] in Hs.
    apply andb_true_iff in Hs. destruct Hs as [Hb Hs].
    destruct (isspace b).
    + destruct (truthy word); [constructor; [assumption|] |];
        apply IH; try reflexivity; assumption.
    + apply IH; [|assumption].
      rewrite SvgFacts.lacks_app, Hw. unfold Svg.lacks. cbn [forallb].
      rewrite Hb. reflexivity.
Qed.

Lemma join_lacks (c : char) (sep : str) (ws : list str) :
  Svg.lacks c sep = true ->
  Forall (fun w => Svg.lacks c w = true) ws ->
  Svg.lacks c (join sep ws) = true.
Proof.
  intros Hsep. induction 1 as [|w ws Hw Hws IH]; [reflexivity|].
  destruct ws as [|q ws]; [assumption|].
  rewrite join_cons, !SvgFacts.lacks_app, Hw, Hsep, IH. reflexivity.
Qed.

Lemma no_space_lacks (c : char) (w : str) :
  isspace c = true -> no_space w -> Svg.lacks c w = true.
Proof.
  intros Hc. induction 1 as [|b w Hb _ IH]; [reflexivity|].
  unfold Svg.lacks in *. cbn [forallb]. rewrite IH, andb_true_r.
  destruct (N.eqb_spec b c) as [-> | _]; [congruence | reflexivity].
Qed.

(** A character that the quote does not hold is in none of its lines;
    and no line holds a newline. *)
Lemma wrap_text_lacks (c : char) (text : str) (max_length : Z) :
  c <> space -> Svg.lacks c text = true ->
  Forall (fun l => Svg.lacks c l = true) (wrap_text text max_length).
Proof.
  intros Hc Ht. apply Forall_forall. intros l Hl.
  pose proof (proj1 (Forall_forall _ _)
                (wrap_text_shaped text max_length) l Hl)
    as (ws & _ & Hincl & ->).
  apply join_lacks.
  - unfold Svg.lacks. cbn [forallb].
    destruct (N.eqb_spec space c) as [E | _]; [congruence | reflexivity].
  - apply Forall_forall. intros w Hw.
    exact (proj1 (Forall_forall _ _)
             (split_from_lacks c text [] eq_refl Ht) w (Hincl w Hw)).
Qed.

Lemma wrap_text_lacks_newline (text : str) (max_length : Z) :
  Forall (fun l => Svg.lacks newline l = true) (wrap_text text max_length).
Proof.
  apply Forall_forall. intros l Hl.
  pose proof (proj1 (Forall_forall _ _)
                (wrap_text_shaped text max_length) l Hl) as Hline.
  destruct (line_of_words _ _ (split_words text) Hline)
    as (ws & _ & Hws & ->).
  apply join_lacks; [reflexivity|].
  apply Forall_forall. intros w Hw.
  apply no_space_lacks; [reflexivity|].
  exact (proj2 (proj1 (Forall_forall _ _) Hws w Hw)).
Qed.

Lemma Forall_mapi_from {A B : Type} (P : A -> Prop) (Q : B -> Prop)
  (f : nat -> A -> B) (l : list A) :
  (forall i x, P x -> Q (f i x)) ->
  Forall P l -> forall k, Forall Q (mapi_from f k l).
Proof.
  intros Hf. induction 1 as [|x l Hx _ IH]; intros k; cbn [mapi_from];
    constructor; [apply Hf; assumption | apply IH].
Qed.

(** ** The text elements of the returned string *)

Lemma text_elements_rows (ls : list str) (v : str) :
  Forall (fun l => Svg.lacks 60%N l = true) ls ->
  forall k,
    Svg.text_elements
      (flat_map (fun r => r ++ [newline])
         (mapi_from (fun i l => quote_row (row_position i) l) k ls) ++ v)
    = mapi_from (fun i l => Svg.quote_view (row_position i) l) k ls
      ++ Svg.text_elements v.
Proof.
  induction 1 as [|l ls Hl _ IH]; intros k; [reflexivity|].
  cbn [mapi_from flat_map]. rewrite <- !app_assoc.
  rewrite SvgFacts.text_elements_quote_row by assumption.
  rewrite (SvgFacts.text_elements_skip [newline]) by reflexivity.
  rewrite IH. reflexivity.
Qed.

Lemma expected_rows_eq (ls : list str) (author : str) :
  expected_rows ls author
  = mapi_from (fun i l => Svg.quote_view (row_position i) l) 0 ls
    ++ [Svg.author_view (row_position (length ls) + 20) author].
Proof.
  unfold expected_rows. f_equal.
  unfold Svg.author_view, row_position, len. do 4 f_equal. lia.
Qed.

(** When neither the quote nor the author holds a [<], the text elements
    of the returned string are the rows of the wrapped lines, in order, and
    then the row of the author. *)
Lemma text_elements_final (quote_text author : str) :
  Svg.lacks 60%N quote_text = true ->
  Svg.lacks 60%N author = true ->
  Svg.text_elements (generate_quote_svg quote_text author)
  = expected_rows (wrap_text quote_text MAX_LINE_LENGTH) author.
Proof.
  intros Hq Ha. rewrite generate_quote_svg_flat, expected_rows_eq.
  rewrite SvgFacts.text_elements_svg_open.
  rewrite (SvgFacts.text_elements_skip [newline]) by reflexivity.
  rewrite SvgFacts.text_elements_svg_rect.
  rewrite (SvgFacts.text_elements_skip [newline]) by reflexivity.
  rewrite SvgFacts.text_elements_g_open.
  rewrite (SvgFacts.text_elements_skip [newline]) by reflexivity.
  rewrite text_elements_rows
    by (apply wrap_text_lacks; [discriminate | assumption]).
  rewrite SvgFacts.text_elements_author_row by assumption.
  rewrite SvgFacts.text_elements_closing. reflexivity.
Qed.

(** ** The text lines of the returned string *)

Lemma doc_lines_rows (rows : list str) (v : str) :
  Forall (fun r => Svg.lacks newline r = true) rows ->
  Svg.doc_lines (flat_map (fun r => r ++ [newline]) rows ++ v)
  = rows ++ Svg.doc_lines v.
Proof.
  induction 1 as [|r rows Hr _ IH]; [reflexivity|].
  cbn [flat_map]. rewrite <- !app_assoc.
  change ([newline] ++ flat_map (fun r0 => r0 ++ [newline]) rows ++ v)
    with (newline :: flat_map (fun r0 => r0 ++ [newline]) rows ++ v).
  rewrite SvgFacts.doc_lines_piece by assumption. rewrite IH. reflexivity.
Qed.

Lemma quote_row_lacks_newline (y : Z) (line : str) :
  Svg.lacks newline line = true -> Svg.lacks newline (quote_row y line) = true.
Proof.
  intros H. unfold quote_row.
  rewrite !SvgFacts.lacks_app, SvgFacts.quote_attrs_lack_newline, H.
  reflexivity.
Qed.

Lemma opens_text_row (attrs rest : str) :
  hd_error attrs = Some space -> Svg.lacks 62%N attrs = true ->
  Svg.opens "text" (lit "    <text" ++ attrs ++ 62%N :: rest) = true.
Proof.
  intros Hhd H. unfold Svg.opens.
  rewrite SvgFacts.open_tag_text_row by assumption.
  destruct attrs as [|c attrs]; [discriminate|].
  injection Hhd as ->. reflexivity.
Qed.

Lemma opens_quote_row (y : Z) (line : str) :
  Svg.opens "text" (quote_row y line) = true.
Proof.
  apply (opens_text_row (quote_attrs y)
           ([dquote] ++ line ++ [dquote] ++ lit "</text>")).
  - reflexivity.
  - apply SvgFacts.quote_attrs_lack_gt.
Qed.

Lemma filter_opens_rows (ls : list str) :
  forall k,
    filter (Svg.opens "text")
      (mapi_from (fun i l => quote_row (row_position i) l) k ls)
    = mapi_from (fun i l => quote_row (row_position i) l) k ls.
Proof.
  induction ls as [|l ls IH]; intros k; [reflexivity|].
  cbn [mapi_from filter]. rewrite opens_quote_row, IH. reflexivity.
Qed.

(** The lines of the returned string that open a text element: the rows of
    the wrapped lines, then the line that the row of the author starts,
    then whatever the author itself brings. *)
Lemma text_lines_final (quote_text author : str) :
  let ls := wrap_text quote_text MAX_LINE_LENGTH in
  exists rest more,
    Svg.text_lines (generate_quote_svg quote_text author)
    = mapi_from (fun i l => quote_row (row_position i) l) 0 ls
      ++ (lit "    <text" ++ author_attrs (row_position (length ls) + 20)
          ++ 62%N :: [em_dash; space] ++ rest) :: more.
Proof.
  intros ls. rewrite generate_quote_svg_flat. fold ls.
  unfold Svg.text_lines.
  change (svg_open (20 * len ls + 100) ++ [newline] ++ ?x)
    with (svg_open (20 * len ls + 100) ++ newline :: x).
  rewrite SvgFacts.doc_lines_piece by apply SvgFacts.svg_open_lacks_newline.
  change (svg_rect (20 * len ls + 100) ++ [newline] ++ ?x)
    with (svg_rect (20 * len ls + 100) ++ newline :: x).
  rewrite SvgFacts.doc_lines_piece by apply SvgFacts.svg_rect_lacks_newline.
  change (lit "  <g>" ++ [newline] ++ ?x) with (lit "  <g>" ++ newline :: x).
  rewrite SvgFacts.doc_lines_piece by reflexivity.
  rewrite doc_lines_rows.
  2:{ apply (Forall_mapi_from (fun l => Svg.lacks newline l = true)).
      - intros i x Hx. apply quote_row_lacks_newline. assumption.
      - apply wrap_text_lacks_newline. }
  cbn [filter].
  change (Svg.opens "text" (svg_open (20 * len ls + 100))) with false.
  change (Svg.opens "text" (svg_rect (20 * len ls + 100))) with false.
  change (Svg.opens "text" (lit "  <g>")) with false.
  cbv iota. rewrite filter_app, filter_opens_rows.
  set (y := row_position (length ls) + 20).
  set (tail := [newline] ++ lit "  </g>" ++ [newline] ++ lit "</svg>").
  assert (E : author_row y author ++ tail
              = (lit "    <text" ++ author_attrs y ++ lit ">"
                 ++ [em_dash; space])
                ++ author ++ lit "</text>" ++ tail)
    by (unfold author_row; rewrite <- !app_assoc; reflexivity).
  rewrite E. unfold Svg.doc_lines.
  rewrite SvgFacts.lines_from_run.
  2:{ rewrite !SvgFacts.lacks_app, SvgFacts.author_attrs_lack_newline.
      reflexivity. }
  destruct (SvgFacts.lines_from_head (author ++ lit "</text>" ++ tail)
              ([] ++ lit "    <text" ++ author_attrs y ++ lit ">"
               ++ [em_dash; space]))
    as (l & more & ->).
  exists l, (filter (Svg.opens "text") more). cbn [filter].
  assert (Hrow : ([] ++ lit "    <text" ++ author_attrs y ++ lit ">"
                  ++ [em_dash; space]) ++ l
                 = lit "    <text" ++ author_attrs y
                   ++ 62%N :: [em_dash; space] ++ l)
    by (cbn [app]; rewrite <- !app_assoc; reflexivity).
  rewrite Hrow.
  rewrite (opens_text_row (author_attrs y) ([em_dash; space] ++ l));
    [reflexivity | reflexivity | apply SvgFacts.author_attrs_lack_gt].
Qed.

Lemma generate_quote_svg_starts (quote_text author : str) :
  let h := 20 * len (wrap_text quote_text MAX_LINE_LENGTH) + 100 in
  exists rest, generate_quote_svg quote_text author = svg_open h ++ rest.
Proof.
  intros h. unfold generate_quote_svg. rewrite final_svg_parts_eq. fold h.
  eexists. simpl app. rewrite join_cons. reflexivity.
Qed.

(* ================================================================== *)
(** * Properties of [generate_quote_svg] *)

Lemma root_height (quote_text author : str) :
  Svg.root_attribute "height" (generate_quote_svg quote_text author)
  = Some (str_of_int
            (20 * len (wrap_text quote_text MAX_LINE_LENGTH) + 100)).
Proof.
  destruct (generate_quote_svg_starts quote_text author) as [rest ->].
  unfold Svg.root_attribute. rewrite SvgFacts.open_tag_svg_open.
  apply SvgFacts.svg_attrs_height.
Qed.

Lemma root_width (quote_text author : str) :
  Svg.root_attribute "width" (generate_quote_svg quote_text author)
  = Some (lit "700").
Proof.
  destruct (generate_quote_svg_starts quote_text author) as [rest ->].
  unfold Svg.root_attribute. rewrite SvgFacts.open_tag_svg_open.
  apply SvgFacts.svg_attrs_width.
Qed.

(** C3.  The height attribute of the document that
    [generate_quote_svg quote_text author] returns is 20 times the number of
    lines of [wrap_text quote_text 80], plus 100. *)
Theorem svg_height_attribute (quote_text author : str) :
  Svg.root_attribute "height" (generate_quote_svg quote_text author)
  = Some (str_of_int (20 * len (wrap_text quote_text 80) + 100)).
Proof. apply root_height. Qed.

Lemma line_y_quote_row (y : Z) (line : str) :
  Svg.line_attribute "y" (quote_row y line) = Some (str_of_int y).
Proof.
  unfold Svg.line_attribute.
  change (Svg.open_tag "text" (quote_row y line))
    with (Svg.open_tag "text"
            (lit "    <text" ++ quote_attrs y
             ++ 62%N :: [dquote] ++ line ++ [dquote] ++ lit "</text>")).
  rewrite SvgFacts.open_tag_text_row by apply SvgFacts.quote_attrs_lack_gt.
  apply SvgFacts.quote_attrs_y.
Qed.

Lemma line_y_author_line (y : Z) (rest : str) :
  Svg.line_attribute "y"
    (lit "    <text" ++ author_attrs y ++ 62%N :: [em_dash; space] ++ rest)
  = Some (str_of_int y).
Proof.
  unfold Svg.line_attribute.
  rewrite SvgFacts.open_tag_text_row by apply SvgFacts.author_attrs_lack_gt.
  apply SvgFacts.author_attrs_y.
Qed.

(** C4 as the specification states it fails: in the document returned
    for the quote [a] by [b] the only quote row is at 45 and the row of the
    author at 85, which is not 20 below. *)
Lemma author_row_not_20_below_last :
  ~ (quote_rows_positioned (lit "a") (lit "b")
     /\ author_row_below_last 20 (lit "a") (lit "b")).
Proof.
  intros [_ H].
  destruct (H 0%nat eq_refl) as (row & tag & rest & Hrow & _ & Hy).
  vm_compute in Hrow. injection Hrow as <-.
  vm_compute in Hy. discriminate.
Qed.

(** C4, amended.  In the returned document the rows of the wrapped lines
    are at [padding + 25] (45) for the first and 20 further down for each
    following one, and the row of the author is 40 units below the row of
    the last wrapped line.  The rows are the lines of the returned string
    that open a text element; where neither quote nor author holds a [<],
    its text elements read tag by tag are at the same positions. *)
Theorem svg_row_positions (quote_text author : str) :
  quote_rows_positioned quote_text author
  /\ author_row_below_last 40 quote_text author
  /\ (Svg.lacks 60%N quote_text = true -> Svg.lacks 60%N author = true ->
      map Svg.row_y
        (Svg.text_elements (generate_quote_svg quote_text author))
      = map (fun i => Some (str_of_int (45 + 20 * Z.of_nat i)))
          (seq 0 (length (wrap_text quote_text MAX_LINE_LENGTH)))
        ++ [Some (str_of_int
                    (45 + 20 * (len (wrap_text quote_text MAX_LINE_LENGTH) - 1)
                     + 40))]).
Proof.
  unfold quote_rows_positioned, author_row_below_last.
  destruct (text_lines_final quote_text author) as (rest & more & E).
  rewrite E. clear E.
  set (ls := wrap_text quote_text MAX_LINE_LENGTH).
  split; [|split].
  - intros i line Hi.
    assert (Hlt : (i < length ls)%nat)
      by (apply nth_error_Some; rewrite Hi; discriminate).
    rewrite nth_error_app1 by (rewrite length_mapi_from; assumption).
    rewrite nth_error_mapi_from, Hi. cbn [option_map Nat.add].
    exists (quote_row (row_position i) line),
           (lit "    <text" ++ quote_attrs (row_position i) ++ lit ">").
    split; [reflexivity | split].
    + unfold quote_row. rewrite <- !app_assoc. reflexivity.
    + apply line_y_quote_row.
  - intros last Hn.
    rewrite nth_error_app2 by (rewrite length_mapi_from; lia).
    rewrite length_mapi_from, Hn, Nat.sub_diag. cbn [nth_error].
    eexists. exists (lit "    <text" ++ author_attrs (row_position (S last) + 20)),
                    rest.
    split; [reflexivity | split].
    + rewrite <- !app_assoc. reflexivity.
    + rewrite line_y_author_line. f_equal. f_equal.
      unfold row_position, SVG_PADDING, SVG_LINE_HEIGHT. lia.
  - intros Hq Ha. rewrite (text_elements_final _ _ Hq Ha). fold ls.
    unfold expected_rows. rewrite map_app. f_equal.
    + generalize 0%nat. induction ls as [|l ls' IH]; intros k;
        [reflexivity|].
      cbn [mapi_from map length seq]. f_equal. apply IH.
    + cbn [map Svg.row_y]. do 3 f_equal. lia.
Qed.

Lemma svg_row_positions_witness :
  quote_rows_positioned (lit "Talk is cheap. Show me the code.") (lit "Linus")
  /\ author_row_below_last 40 (lit "Talk is cheap. Show me the code.")
       (lit "Linus")
  /\ map Svg.row_y
       (Svg.text_elements
          (generate_quote_svg (lit "Talk is cheap. Show me the code.")
             (lit "Linus")))
     = [Some (lit "45"); Some (lit "85")].
Proof.
  destruct (svg_row_positions (lit "Talk is cheap. Show me the code.")
              (lit "Linus")) as (H1 & H2 & H3).
  split; [exact H1 | split; [exact H2|]].
  rewrite H3; reflexivity.
Defined.

(** C5 as the specification states it, for every quote and author, fails:
    for the quote [a</text><text>b] there is one wrapped line, and the
    returned document holds three text elements. *)
Lemma markup_in_quote_breaks_structure :
  ~ document_as_specified (lit "a</text><text>b") (lit "c").
Proof.
  intros (_ & _ & _ & H). vm_compute in H. discriminate.
Qed.

(** C5, amended.  For every quote and author that hold no [<], the
    returned document is the root element, with width 700 and the computed
    height, around one grouping element, which holds one text element for
    each wrapped line, in order from the top (font size 16, anchored in the
    middle, italic, the line between double quotes), and after them one
    text element (font size 14, anchored in the middle, no font style) that
    holds an em dash, a space and the author.  For the quote of Guido van
    Rossum the document has one quote row and one attribution row. *)
Theorem svg_document_structure :
  (forall quote_text author : str,
      Svg.lacks 60%N quote_text = true ->
      Svg.lacks 60%N author = true ->
      document_as_specified quote_text author)
  /\ Svg.text_elements
       (generate_quote_svg (lit "Code is read more often than written.")
          (lit "Guido van Rossum"))
     = [ {| Svg.row_y := Some (lit "45");
            Svg.row_font_size := Some (lit "16");
            Svg.row_anchor := Some (lit "middle");
            Svg.row_style := Some (lit "italic");
            Svg.row_content :=
              [dquote] ++ lit "Code is read more often than written."
              ++ [dquote] |};
         {| Svg.row_y := Some (lit "85");
            Svg.row_font_size := Some (lit "14");
            Svg.row_anchor := Some (lit "middle");
            Svg.row_style := None;
            Svg.row_content := [em_dash; space] ++ lit "Guido van Rossum" |} ].
Proof.
  split; [|vm_compute; reflexivity].
  intros quote_text author Hq Ha. unfold document_as_specified.
  split; [apply root_width | split; [apply root_height | split]].
  - exists (mapi_from (fun i l => quote_row (row_position i) l) 0
              (wrap_text quote_text MAX_LINE_LENGTH)
            ++ [author_row
                  (row_position
                     (length (wrap_text quote_text MAX_LINE_LENGTH)) + 20)
                  author]).
    split.
    + unfold generate_quote_svg. rewrite final_svg_parts_eq.
      rewrite <- !app_assoc. reflexivity.
    + rewrite length_app, length_mapi_from. simpl. lia.
  - apply text_elements_final; assumption.
Qed.

Lemma svg_document_structure_witness :
  document_as_specified (lit "Talk is cheap.  Show me the code.")
    (lit "Linus Torvalds").
Proof.
  apply (proj1 svg_document_structure); vm_compute; reflexivity.
Defined.

(** C10 as the specification states it, for every quote and author, fails:
    for the quote [a] by [b</text><text>c] there is one wrapped line, and
    the returned document holds three text elements. *)
Lemma markup_in_author_adds_text_element :
  length (Svg.text_elements
            (generate_quote_svg (lit "a") (lit "b</text><text>c")))
  <> S (length (wrap_text (lit "a") 80)).
Proof. vm_compute. discriminate. Qed.

Lemma blank_lacks (c : char) (text : str) :
  isspace c = false -> forallb isspace text = true ->
  Svg.lacks c text = true.
Proof.
  intros Hc. induction text as [|b text IH]; [reflexivity|].
  cbn [forallb]. intros H. apply andb_true_iff in H. destruct H as [Hb Ht].
  unfold Svg.lacks in *. cbn [forallb]. rewrite (IH Ht), andb_true_r.
  destruct (N.eqb_spec b c) as [-> | _]; [congruence | reflexivity].
Qed.

(** C10, amended.  For every quote and author that hold no [<], the
    returned document has one text element more than [wrap_text quote_text
    80] has lines; when the quote is empty or white space only, its height
    is 100 and, the author holding no [<], its one text element is the
    attribution row. *)
Theorem svg_text_element_count :
  (forall quote_text author : str,
      Svg.lacks 60%N quote_text = true ->
      Svg.lacks 60%N author = true ->
      length (Svg.text_elements (generate_quote_svg quote_text author))
      = S (length (wrap_text quote_text 80)))
  /\ (forall quote_text author : str,
         forallb isspace quote_text = true ->
         Svg.root_attribute "height" (generate_quote_svg quote_text author)
         = Some (lit "100")
         /\ (Svg.lacks 60%N author = true ->
             exists row,
               Svg.text_elements (generate_quote_svg quote_text author)
               = [row]
               /\ Svg.row_content row = [em_dash; space] ++ author)).
Proof.
  split.
  - intros quote_text author Hq Ha.
    rewrite (text_elements_final _ _ Hq Ha), expected_rows_eq.
    rewrite length_app, length_mapi_from. simpl.
    change MAX_LINE_LENGTH with 80. lia.
  - intros quote_text author Hblank.
    assert (Hw : wrap_text quote_text MAX_LINE_LENGTH = []).
    { unfold wrap_text. rewrite (split_all_space _ Hblank). reflexivity. }
    split.
    + rewrite root_height, Hw. reflexivity.
    + intros Ha.
      rewrite (text_elements_final quote_text author
                 (blank_lacks 60%N quote_text eq_refl Hblank) Ha), Hw.
      eexists. split; reflexivity.
Qed.

Lemma svg_text_element_count_witness :
  length (Svg.text_elements
            (generate_quote_svg (lit "Talk is cheap.") (lit "Linus")))
  = S (length (wrap_text (lit "Talk is cheap.") 80))
  /\ Svg.root_attribute "height"
       (generate_quote_svg (lit "  " ++ [newline]) (lit "Anonymous"))
     = Some (lit "100")
  /\ exists row,
      Svg.text_elements
        (generate_quote_svg (lit "  " ++ [newline]) (lit "Anonymous"))
      = [row]
      /\ Svg.row_content row = [em_dash; space] ++ lit "Anonymous".
Proof.
  split.
  - apply (proj1 svg_text_element_count); vm_compute; reflexivity.
  - destruct (proj2 svg_text_element_count (lit "  " ++ [newline])
                (lit "Anonymous")) as [H1 H2]; [vm_compute; reflexivity|].
    split; [exact H1 | apply H2; vm_compute; reflexivity].
Defined.

(* ================================================================== *)
(** * The runs and the functions agree *)

Lemma wrap_iter_step (max_length : Z) (word : str) (st st' : wrap_state) :
  wrap_iter max_length word st st' <-> st' = wrap_step max_length st word.
Proof.
  unfold wrap_step, flush. split.
  - intros H. destruct H as [st H | st H Hne | st H He].
    + apply Z.leb_le in H. rewrite H. reflexivity.
    + apply Z.leb_gt in H. rewrite H.
      destruct (current_line st); [contradiction | reflexivity].
    + apply Z.leb_gt in H. rewrite H, He. reflexivity.
  - intros ->. destruct (_ <=? _) eqn:E.
    + apply iter_append. apply Z.leb_le. assumption.
    + apply Z.leb_gt in E. destruct (truthy (current_line st)) eqn:Et.
      * apply iter_flush; [rewrite Et | apply truthy_true]; assumption.
      * apply iter_restart; [rewrite Et | apply truthy_false]; assumption.
Qed.

Lemma wrap_run_loop (max_length : Z) (words : list str) :
  forall st st',
    wrap_run max_length words st st' <-> st' = wrap_loop max_length words st.
Proof.
  unfold wrap_loop.
  induction words as [|w words IH]; intros st st'; simpl; split.
  - intros H. inversion H. reflexivity.
  - intros ->. constructor.
  - intros H. inversion H as [|? ? ? st1 ? Hi Hr]; subst.
    apply wrap_iter_step in Hi. subst. apply IH. assumption.
  - intros ->. econstructor; [apply wrap_iter_step; reflexivity|].
    apply IH. reflexivity.
Qed.

Lemma wraps_wrap_text (text : str) (max_length : Z) (result : list str) :
  wraps text max_length result <-> result = wrap_text text max_length.
Proof.
  unfold wrap_text, flush. split.
  - intros [st Hr Hne | st Hr He]; apply wrap_run_loop in Hr; subst st.
    + destruct (current_line _); [contradiction | reflexivity].
    + rewrite He. reflexivity.
  - intros ->.
    destruct (truthy (current_line
                (wrap_loop max_length (split text) wrap_init))) eqn:E.
    + apply wraps_flush; [apply wrap_run_loop; reflexivity|].
      apply truthy_true. assumption.
    + apply wraps_plain; [apply wrap_run_loop; reflexivity|].
      apply truthy_false. assumption.
Qed.

Lemma render_run_fold (ls : list str) :
  forall st st', render_run ls st st' <-> st' = fold_left render_step ls st.
Proof.
  induction ls as [|l ls IH]; intros st st'; simpl; split.
  - intros H. inversion H. reflexivity.
  - intros ->. constructor.
  - intros H. inversion H; subst. apply IH. assumption.
  - intros ->. constructor. apply IH. reflexivity.
Qed.

Lemma renders_generate_quote_svg (quote_text author doc : str) :
  renders quote_text author doc <-> doc = generate_quote_svg quote_text author.
Proof.
  unfold generate_quote_svg, final_svg_parts. split.
  - intros [ls st Hw Hr]. apply wraps_wrap_text in Hw. subst ls.
    apply render_run_fold in Hr. subst st. reflexivity.
  - intros ->.
    exact (renders_intro quote_text author _ _
             (proj2 (wraps_wrap_text _ _ _) eq_refl)
             (proj2 (render_run_fold _ _ _) eq_refl)).
Qed.

(** C8.  [generate_quote_svg] is deterministic: it returns, and two runs
    on the same quote and author return the same string; and so it is
    with [wrap_text] on the same text and width. *)
Theorem generate_quote_svg_deterministic :
  (forall quote_text author : str,
      (exists doc, renders quote_text author doc)
      /\ forall doc1 doc2 : str,
          renders quote_text author doc1 ->
          renders quote_text author doc2 ->
          doc1 = doc2)
  /\ (forall (text : str) (max_length : Z),
         (exists result, wraps text max_length result)
         /\ forall result1 result2 : list str,
             wraps text max_length result1 ->
             wraps text max_length result2 ->
             result1 = result2).
Proof.
  split.
  - intros quote_text author. split.
    + exists (generate_quote_svg quote_text author).
      apply renders_generate_quote_svg. reflexivity.
    + intros doc1 doc2 H1 H2.
      apply renders_generate_quote_svg in H1, H2. congruence.
  - intros text max_length. split.
    + exists (wrap_text text max_length).
      apply wraps_wrap_text. reflexivity.
    + intros result1 result2 H1 H2.
      apply wraps_wrap_text in H1, H2. congruence.
Qed.

Lemma generate_quote_svg_deterministic_witness :
  generate_quote_svg (lit "Talk is cheap.") (lit "Linus")
  = join [newline] (final_svg_parts (lit "Talk is cheap.") (lit "Linus"))
  /\ wrap_text (lit "the quick brown fox jumps") 10
     = [lit "the quick"; lit "brown fox"; lit "jumps"].
Proof.
  split.
  - apply (proj2 (proj1 generate_quote_svg_deterministic
                    (lit "Talk is cheap.") (lit "Linus")));
      apply renders_generate_quote_svg; reflexivity.
  - apply (proj2 (proj2 generate_quote_svg_deterministic
                    (lit "the quick brown fox jumps") 10));
      apply wraps_wrap_text; [reflexivity | vm_compute; reflexivity].
Defined.

(* ================================================================== *)
(** * More on the lines of [wrap_text] *)

Lemma len_join_prefix (a b : list str) :
  len (join [space] a) <= len (join [space] (a ++ b)).
Proof.
  induction b as [|x b IH] using rev_ind.
  - rewrite app_nil_r. lia.
  - rewrite app_assoc, len_join_snoc.
    pose proof (len_nonneg x). destruct (truthy (a ++ b)); lia.
Qed.

Lemma in_split_word (text w : str) : In w (split text) -> is_word w.
Proof.
  intros H. exact (proj1 (Forall_forall _ _) (split_words text) w H).
Qed.

Section MoreWrapLoop.

Variable max_length : Z.

(** While the words still fit, the loop only extends the current line. *)
Lemma wrap_loop_fits (words : list str) :
  forall st,
    length_tracked st ->
    len (join [space] (current_line st ++ words)) <= max_length ->
    wrap_loop max_length words st
    = {| lines := lines st;
         current_line := current_line st ++ words;
         current_length := len (join [space] (current_line st ++ words)) |}.
Proof.
  unfold wrap_loop.
  induction words as [|w words IH]; intros st Ht Hfit.
  - simpl. rewrite app_nil_r, <- Ht. destruct st; reflexivity.
  - simpl fold_left.
    assert (Hw : current_length st
                 + (len w + (if truthy (current_line st) then 1 else 0))
                 <= max_length).
    { rewrite Ht, <- len_join_snoc.
      change (w :: words) with ([w] ++ words) in Hfit.
      rewrite app_assoc in Hfit.
      pose proof (len_join_prefix (current_line st ++ [w]) words). lia. }
    unfold wrap_step at 2. apply Z.leb_le in Hw. rewrite Hw.
    rewrite IH; simpl.
    + rewrite <- app_assoc. reflexivity.
    + unfold length_tracked. simpl. rewrite len_join_snoc, Ht. reflexivity.
    + rewrite <- app_assoc. assumption.
Qed.

(** Words that are all over the budget go one to a line. *)
Lemma wrap_loop_all_long (words : list str) :
  Forall (fun w => max_length < len w) words ->
  forall st,
    length_tracked st ->
    (length (current_line st) <= 1)%nat ->
    let st' := wrap_loop max_length words st in
    flush (lines st') (current_line st')
    = flush (lines st) (current_line st) ++ words.
Proof.
  unfold wrap_loop.
  induction 1 as [|w words Hw _ IH]; intros st Ht Hcur; simpl.
  - rewrite app_nil_r. reflexivity.
  - assert (E : wrap_step max_length st w
                = {| lines := flush (lines st) (current_line st);
                     current_line := [w];
                     current_length := len w |}).
    { unfold wrap_step. unfold length_tracked in Ht.
      pose proof (len_nonneg (join [space] (current_line st))).
      destruct (_ <=? _) eqn:E; [|reflexivity].
      apply Z.leb_le in E. destruct (truthy (current_line st)); lia. }
    rewrite E, IH; simpl.
    + change (flush (flush (lines st) (current_line st)) [w])
        with (flush (lines st) (current_line st) ++ [w]).
      rewrite <- app_assoc. reflexivity.
    + reflexivity.
    + lia.
Qed.

Lemma chain_snoc (R : str -> str -> Prop) (ls : list str) (x : str) :
  chain R ls ->
  (forall ls' l, ls = ls' ++ [l] -> R l x) ->
  chain R (ls ++ [x]).
Proof.
  induction ls as [|l1 ls IH]; intros Hc Hlast; [exact I|].
  destruct ls as [|l2 ls].
  - simpl. split; [|exact I]. apply (Hlast []). reflexivity.
  - change ((l1 :: l2 :: ls) ++ [x]) with (l1 :: (l2 :: ls) ++ [x]).
    destruct Hc as [H12 Hc].
    change (R l1 l2 /\ chain R ((l2 :: ls) ++ [x])).
    split; [assumption|]. apply IH; [assumption|].
    intros ls' l E. apply (Hlast (l1 :: ls') l). rewrite E. reflexivity.
Qed.

Lemma chain_inside (R : str -> str -> Prop) (pre : list str) :
  forall l1 l2 post, chain R (pre ++ l1 :: l2 :: post) -> R l1 l2.
Proof.
  induction pre as [|p pre IH]; intros l1 l2 post H.
  - destruct H as [H _]. assumption.
  - apply (IH l1 l2 post).
    destruct pre as [|q pre]; simpl in H |- *; destruct H as [_ H];
      assumption.
Qed.

Lemma wrap_step_breaks_forced (st : wrap_state) (w : str) :
  breaks_forced max_length st -> is_word w ->
  breaks_forced max_length (wrap_step max_length st w).
Proof.
  intros (Hc & Hw & Ht & He & Hl) Hword.
  assert (Ht' := wrap_step_length_tracked max_length st w Ht).
  unfold breaks_forced. unfold wrap_step in *.
  destruct (_ <=? _) eqn:E; simpl.
  - repeat split; try assumption.
    + apply Forall_app. split; [assumption|].
      constructor; [assumption | constructor].
    + intros H. destruct (current_line st); discriminate.
    + intros ls l w0 rest Els Ecur.
      destruct (current_line st) as [|c cur] eqn:Ec.
      * rewrite (He eq_refl) in Els. destruct ls; discriminate.
      * simpl in Ecur. injection Ecur as -> _.
        apply (Hl ls l w0 cur); [assumption | reflexivity].
  - apply Z.leb_gt in E.
    destruct (current_line st) as [|c cur] eqn:Ec.
    + rewrite (He eq_refl) in *.
      change (flush [] []) with (@nil str) in *.
      split; [exact I | split; [| split; [| split]]].
      * constructor; [assumption | constructor].
      * assumption.
      * discriminate.
      * intros ls l w0 rest Els. destruct ls; discriminate.
    + assert (Hsplit : split (join [space] (c :: cur)) = c :: cur)
        by (apply split_join_words; assumption).
      change (flush (lines st) (c :: cur))
        with (lines st ++ [join [space] (c :: cur)]) in *.
      split; [| split; [| split; [| split]]].
      * apply chain_snoc; [assumption|].
        intros ls' l Els w0 ws Ew. rewrite Hsplit in Ew.
        injection Ew as <- <-. apply (Hl ls' l c cur); [assumption|].
        reflexivity.
      * constructor; [assumption | constructor].
      * assumption.
      * discriminate.
      * intros ls l w0 rest Els Ecur. injection Ecur as <- <-.
        apply app_inj_tail in Els. destruct Els as [_ <-].
        unfold length_tracked in Ht. rewrite Ec in Ht.
        simpl truthy in E. cbv iota in E. lia.
Qed.

End MoreWrapLoop.

Lemma wrap_init_breaks_forced (max_length : Z) :
  breaks_forced max_length wrap_init.
Proof.
  unfold breaks_forced, wrap_init. simpl.
  split; [exact I | split; [constructor | split; [reflexivity | split]]].
  - reflexivity.
  - intros ls l w rest E. destruct ls; discriminate.
Qed.

Lemma wrap_text_chain (text : str) (max_length : Z) :
  chain (break_forced max_length) (wrap_text text max_length).
Proof.
  unfold wrap_text.
  assert (H : breaks_forced max_length
                (wrap_loop max_length (split text) wrap_init)).
  { apply (wrap_loop_invariant max_length (breaks_forced max_length) is_word).
    - intros; apply wrap_step_breaks_forced; assumption.
    - apply split_words.
    - apply wrap_init_breaks_forced. }
  destruct H as (Hc & Hw & _ & _ & Hl). unfold flush.
  destruct (current_line _) as [|c cur] eqn:Ec; simpl truthy; cbv iota;
    [assumption|].
  apply chain_snoc; [assumption|].
  intros ls' l Els w ws Ew.
  rewrite split_join_words in Ew by assumption. injection Ew as <- <-.
  apply (Hl ls' l c cur); [assumption | reflexivity].
Qed.

Lemma flat_map_split_count (all ls : list str) :
  Forall is_word all -> Forall (line_of all) ls ->
  (length ls <= length (flat_map split ls))%nat.
Proof.
  intros Hall. induction 1 as [|l ls Hl _ IH]; simpl; [lia|].
  destruct (line_of_words all l Hall Hl) as (ws & Hne & Hws & ->).
  rewrite length_app, split_join_words by assumption.
  destruct ws; [contradiction | simpl; lia].
Qed.

(** X1.  The line breaks of [wrap_text] are forced: the first word of a
    line would not have fitted, after a space, at the end of the line before
    it. *)
Theorem wrap_text_breaks_are_forced
  (text : str) (max_length : Z) (before : list str) (l1 l2 : str)
  (after : list str) (w : str) (ws : list str) :
  wrap_text text max_length = before ++ l1 :: l2 :: after ->
  split l2 = w :: ws ->
  max_length < len l1 + 1 + len w.
Proof.
  intros E Hw. pose proof (wrap_text_chain text max_length) as H.
  rewrite E in H. exact (chain_inside _ _ _ _ _ H w ws Hw).
Qed.

Lemma wrap_text_breaks_are_forced_witness :
  10 < len (lit "the quick") + 1 + len (lit "brown").
Proof.
  apply (wrap_text_breaks_are_forced (lit "the quick brown fox jumps") 10
           [] (lit "the quick") (lit "brown fox") [lit "jumps"]
           (lit "brown") [lit "fox"]).
  - vm_compute. reflexivity.
  - vm_compute. reflexivity.
Defined.

(** X2.  A text with a word whose words, joined by single spaces, fit in
    [max_length] is wrapped to that one line. *)
Theorem wrap_text_single_line (text : str) (max_length : Z) :
  split text <> [] ->
  len (join [space] (split text)) <= max_length ->
  wrap_text text max_length = [join [space] (split text)].
Proof.
  intros Hne Hfit. unfold wrap_text.
  rewrite wrap_loop_fits; [| reflexivity | assumption].
  simpl. unfold flush. destruct (split text); [contradiction | reflexivity].
Qed.

Lemma wrap_text_single_line_witness :
  wrap_text (lit " Talk  is cheap. ") 80 = [lit "Talk is cheap."].
Proof.
  apply (wrap_text_single_line (lit " Talk  is cheap. ") 80).
  - vm_compute. discriminate.
  - vm_compute. discriminate.
Defined.

(** X3.  When every word of the text is longer than [max_length], and so
    whenever [max_length] is zero or negative, each word is a line: the
    lines are the words. *)
Theorem wrap_text_word_per_line :
  (forall (text : str) (max_length : Z),
      Forall (fun w => max_length < len w) (split text) ->
      wrap_text text max_length = split text)
  /\ (forall (text : str) (max_length : Z),
         max_length <= 0 -> wrap_text text max_length = split text).
Proof.
  assert (H : forall text max_length,
             Forall (fun w => max_length < len w) (split text) ->
             wrap_text text max_length = split text).
  { intros text max_length Hlong. unfold wrap_text.
    rewrite (wrap_loop_all_long max_length (split text) Hlong wrap_init);
      [reflexivity | reflexivity | simpl; lia]. }
  split; [exact H|].
  intros text max_length Hmax. apply H.
  apply Forall_forall. intros w Hw. apply in_split_word in Hw.
  destruct Hw as [Hne _]. destruct w; [contradiction|].
  unfold len. simpl length. lia.
Qed.

Lemma wrap_text_word_per_line_witness :
  wrap_text (lit "to be or not") 1 = [lit "to"; lit "be"; lit "or"; lit "not"]
  /\ wrap_text (lit "a b  c") (-3) = [lit "a"; lit "b"; lit "c"].
Proof.
  split.
  - apply (proj1 wrap_text_word_per_line (lit "to be or not") 1).
    vm_compute. repeat constructor.
  - apply (proj2 wrap_text_word_per_line (lit "a b  c") (-3)). lia.
Defined.

(** X4.  [wrap_text] makes no more lines than the text has words, and no
    line at all only when the text has no word. *)
Theorem wrap_text_line_count (text : str) (max_length : Z) :
  (length (wrap_text text max_length) <= length (split text))%nat
  /\ (wrap_text text max_length = [] <-> split text = []).
Proof.
  pose proof (flat_map_split_count (split text) (wrap_text text max_length)
                (split_words text) (wrap_text_shaped text max_length)) as H.
  rewrite wrap_text_words in H. split; [assumption|]. split.
  - intros E. rewrite <- (wrap_text_words text max_length), E. reflexivity.
  - intros E. destruct (wrap_text text max_length); [reflexivity|].
    rewrite E in H. simpl in H. lia.
Qed.

(** X5.  Wrapping again the lines of [wrap_text], joined by single
    spaces, to the same width gives the same lines. *)
Theorem wrap_text_rewrap (text : str) (max_length : Z) :
  wrap_text (join [space] (wrap_text text max_length)) max_length
  = wrap_text text max_length.
Proof.
  unfold wrap_text at 1. rewrite split_join, wrap_text_words. reflexivity.
Qed.

(** X6.  When neither the quote nor the author holds a [<], every text
    element of the returned document lies inside the canvas: its vertical
    position is at least 45 and at most the declared height less 35; and
    the last of them, the attribution, is exactly 35 above the bottom. *)
Theorem svg_rows_inside_canvas (quote_text author : str) :
  Svg.lacks 60%N quote_text = true ->
  Svg.lacks 60%N author = true ->
  let doc := generate_quote_svg quote_text author in
  exists h : Z,
    Svg.root_attribute "height" doc = Some (str_of_int h)
    /\ (forall row, In row (Svg.text_elements doc) ->
        exists y, Svg.row_y row = Some (str_of_int y) /\ 45 <= y <= h - 35)
    /\ (exists before last,
          Svg.text_elements doc = before ++ [last]
          /\ Svg.row_content last = [em_dash; space] ++ author
          /\ Svg.row_y last = Some (str_of_int (h - 35))).
Proof.
  intros Hq Ha doc. subst doc.
  set (ls := wrap_text quote_text MAX_LINE_LENGTH).
  exists (20 * len ls + 100).
  rewrite root_height, (text_elements_final _ _ Hq Ha), expected_rows_eq.
  fold ls. split; [reflexivity | split].
  - intros row Hin. apply in_app_or in Hin. destruct Hin as [Hin | [<- | []]].
    + apply In_nth_error in Hin. destruct Hin as [i Hi].
      rewrite nth_error_mapi_from in Hi.
      destruct (nth_error ls i) as [l|] eqn:El; [|discriminate].
      injection Hi as <-.
      assert (Hlt : (i < length ls)%nat)
        by (apply nth_error_Some; rewrite El; discriminate).
      exists (row_position i). split; [reflexivity|].
      unfold row_position, len. lia.
    + exists (row_position (length ls) + 20). split; [reflexivity|].
      unfold row_position, len. lia.
  - eexists. eexists. split; [reflexivity | split; [reflexivity|]].
    cbn [Svg.author_view Svg.row_y]. do 2 f_equal.
    unfold row_position, len. lia.
Qed.

Lemma svg_rows_inside_canvas_witness :
  let doc := generate_quote_svg (lit "Talk is cheap.") (lit "Linus") in
  exists h : Z,
    Svg.root_attribute "height" doc = Some (str_of_int h)
    /\ (forall row, In row (Svg.text_elements doc) ->
        exists y, Svg.row_y row = Some (str_of_int y) /\ 45 <= y <= h - 35)
    /\ (exists before last,
          Svg.text_elements doc = before ++ [last]
          /\ Svg.row_content last = [em_dash; space] ++ lit "Linus"
          /\ Svg.row_y last = Some (str_of_int (h - 35))).
Proof.
  apply (svg_rows_inside_canvas (lit "Talk is cheap.") (lit "Linus"));
    vm_compute; reflexivity.
Defined.

(* ================================================================== *)
(** * Occurrences and substitution *)

Module ScriptFacts.

Import Svg Script.

Lemma strip_prefix_spec (p s r : str) :
  strip_prefix p s = Some r <-> s = p ++ r.
Proof.
  split.
  - revert s. induction p as [|a p IH]; intros s H; simpl in H.
    + injection H as ->. reflexivity.
    + destruct s as [|b s]; [discriminate|].
      destruct (N.eqb_spec a b) as [-> | _]; [|discriminate].
      rewrite (IH s H). reflexivity.
  - intros ->. apply SvgFacts.strip_prefix_app.
Qed.

(** Whether [p] is a prefix is decided by the first [length p]
    characters. *)
Lemma strip_prefix_local (p x y y' : str) :
  (length p <= length x)%nat ->
  strip_prefix p (x ++ y) = None -> strip_prefix p (x ++ y') = None.
Proof.
  revert x. induction p as [|a p IH]; intros x Hlen H; [discriminate|].
  destruct x as [|b x]; [simpl in Hlen; lia|].
  simpl in *. destruct (a =? b)%N; [|reflexivity].
  apply IH; [lia | assumption].
Qed.

Lemma partition_spec (p : str) (s : str) :
  forall u v, partition p s = Some (u, v) -> s = u ++ p ++ v.
Proof.
  induction s as [|c s IH]; intros u v H; simpl in H.
  - destruct (strip_prefix p []) as [r|] eqn:E; [|discriminate].
    injection H as <- <-. apply strip_prefix_spec in E. assumption.
  - destruct (strip_prefix p (c :: s)) as [r|] eqn:E.
    + injection H as <- <-. apply strip_prefix_spec in E. assumption.
    + destruct (partition p s) as [[u' v']|]; [|discriminate].
      injection H as <- <-. rewrite (IH u' v' eq_refl). reflexivity.
Qed.

Lemma partition_here (p s r : str) :
  strip_prefix p s = Some r -> partition p s = Some ([], r).
Proof. intros H. destruct s; simpl; rewrite H; reflexivity. Qed.

(** The first occurrence stays the first when what follows it changes. *)
Lemma partition_rest (p : str) (u : str) :
  forall v v',
    partition p (u ++ p ++ v) = Some (u, v) ->
    partition p (u ++ p ++ v') = Some (u, v').
Proof.
  induction u as [|c u IH]; intros v v' H.
  - apply partition_here. exact (SvgFacts.strip_prefix_app p v').
  - change ((c :: u) ++ p ++ v) with (c :: (u ++ p ++ v)) in H.
    change ((c :: u) ++ p ++ v') with (c :: (u ++ p ++ v')).
    simpl in H |- *.
    destruct (strip_prefix p (c :: u ++ p ++ v)) as [r|] eqn:E;
      [discriminate|].
    assert (E' : strip_prefix p (c :: u ++ p ++ v') = None).
    { change (c :: u ++ p ++ v') with ((c :: u) ++ p ++ v').
      rewrite app_assoc.
      apply (strip_prefix_local p ((c :: u) ++ p) v v').
      - rewrite length_app. simpl. lia.
      - rewrite <- app_assoc. assumption. }
    rewrite E'.
    destruct (partition p (u ++ p ++ v)) as [[u0 v0]|] eqn:Ep;
      [|discriminate].
    simpl in H. injection H as -> ->. rewrite (IH v v' Ep). reflexivity.
Qed.

Lemma partition_found (p u v : str) :
  exists u' v', partition p (u ++ p ++ v) = Some (u', v').
Proof.
  induction u as [|c u IH].
  - exists [], v. apply partition_here.
    exact (SvgFacts.strip_prefix_app p v).
  - change ((c :: u) ++ p ++ v) with (c :: (u ++ p ++ v)). simpl.
    destruct (strip_prefix p (c :: u ++ p ++ v)) as [r|];
      [eexists; eexists; reflexivity|].
    destruct IH as (u' & v' & ->). simpl. eexists; eexists; reflexivity.
Qed.

Lemma partition_none_tail (p : str) (c : char) (s : str) :
  partition p (c :: s) = None -> partition p s = None.
Proof.
  simpl. destruct (strip_prefix p (c :: s)); [discriminate|].
  destruct (partition p s) as [[u v]|]; [discriminate | reflexivity].
Qed.

Lemma partition_none_suffix (p : str) (a : str) :
  forall b, partition p (a ++ b) = None -> partition p b = None.
Proof.
  induction a as [|c a IH]; intros b H; [assumption|].
  apply IH. apply (partition_none_tail p c). assumption.
Qed.

Lemma partition_none_head (p : str) (s : str) :
  partition p s = None -> strip_prefix p s = None.
Proof.
  destruct s; simpl; destruct (strip_prefix p _); [discriminate | | discriminate |];
    reflexivity.
Qed.

(** Two ways to cut a text: the shorter end is an end of the longer. *)
Lemma app_suffix (u v r r' : str) :
  u ++ r = v ++ r' -> (length r' <= length r)%nat -> exists x, r = x ++ r'.
Proof.
  revert v. induction u as [|a u IH]; intros v E Hlen.
  - exists v. assumption.
  - destruct v as [|b v].
    + simpl in E. apply (f_equal (@length char)) in E.
      simpl in E. rewrite length_app in E. lia.
    + injection E as _ E. apply (IH v); assumption.
Qed.

Section Substitution.

Variables start stop repl : str.
Hypothesis start_not_empty : start <> [].

Lemma match_here_inv (s : str) (n : nat) :
  match_here start stop s = Some n ->
  exists mid post,
    s = start ++ mid ++ stop ++ post
    /\ partition stop (mid ++ stop ++ post) = Some (mid, post)
    /\ n = (length start + length mid + length stop)%nat.
Proof.
  unfold match_here. intros H.
  destruct (strip_prefix start s) as [r|] eqn:E; [|discriminate].
  destruct (partition stop r) as [[mid post]|] eqn:Ep; [|discriminate].
  injection H as <-. apply strip_prefix_spec in E.
  pose proof (partition_spec _ _ _ _ Ep) as Hr. subst r s.
  exists mid, post. repeat split. assumption.
Qed.

Lemma sub_scan_skip (u : str) :
  forall v, sub_scan start stop repl (length u) (u ++ v)
            = sub_scan start stop repl 0 v.
Proof.
  induction u as [|c u IH]; intros v; [reflexivity|]. simpl. apply IH.
Qed.

(** Where [start] does not occur, nothing is replaced. *)
Lemma sub_scan_no_start (s : str) :
  partition start s = None -> sub_scan start stop repl 0 s = s.
Proof.
  induction s as [|c s IH]; intros H; [reflexivity|].
  pose proof (partition_none_head _ _ H) as Hh.
  cbn [sub_scan]. unfold match_here. rewrite Hh.
  rewrite IH; [reflexivity|]. apply (partition_none_tail _ c). assumption.
Qed.

(** From a [start] that no [stop] follows on, nothing is replaced. *)
Lemma sub_scan_no_stop (r : str) :
  partition stop r = None ->
  forall t a, a ++ t = start ++ r -> sub_scan start stop repl 0 t = t.
Proof.
  intros Hr. induction t as [|c t IH]; intros a E; [reflexivity|].
  cbn [sub_scan].
  destruct (match_here start stop (c :: t)) as [n|] eqn:Em.
  - exfalso. apply match_here_inv in Em.
    destruct Em as (mid & post & Et & Hp & _).
    rewrite Et in E.
    assert (Hlen : (length (mid ++ stop ++ post) <= length r)%nat).
    { apply (f_equal (@length char)) in E.
      rewrite !length_app in E. rewrite !length_app. lia. }
    rewrite app_assoc in E.
    destruct (app_suffix _ _ _ _ (eq_sym E) Hlen) as [x Hx].
    rewrite Hx in Hr. apply partition_none_suffix in Hr.
    rewrite Hr in Hp. discriminate.
  - rewrite (IH (a ++ [c])); [reflexivity|].
    rewrite <- app_assoc. assumption.
Qed.

(** The equation of the substitution: up to the first [start] the text is
    kept, the match that begins there goes to the nearest [stop], and the
    scan goes on after it. *)
Lemma sub_scan_match (s : str) :
  forall pre r mid post,
    partition start s = Some (pre, r) ->
    partition stop r = Some (mid, post) ->
    sub_scan start stop repl 0 s
    = pre ++ repl ++ sub_scan start stop repl 0 post.
Proof.
  induction s as [|c s IH]; intros pre r mid post Hs Hr.
  - simpl in Hs. destruct start; [contradiction | discriminate].
  - cbn [partition] in Hs. cbn [sub_scan]. unfold match_here.
    destruct (strip_prefix start (c :: s)) as [r0|] eqn:E.
    + injection Hs as <- <-. rewrite Hr.
      apply strip_prefix_spec in E.
      pose proof (partition_spec _ _ _ _ Hr) as Er. subst r0.
      assert (Hst : exists a st, start = a :: st)
        by (destruct start as [|a st]; [contradiction | eauto]).
      destruct Hst as (a & st & Hst).
      rewrite Hst in E at 1. injection E as _ ->.
      replace (Nat.pred (length start + length mid + length stop))
        with (length (st ++ mid ++ stop))
        by (rewrite Hst, !length_app; simpl; lia).
      rewrite <- (sub_scan_skip (st ++ mid ++ stop) post).
      rewrite <- !app_assoc. reflexivity.
    + destruct (partition start s) as [[u v]|] eqn:Ep; [|discriminate].
      injection Hs as <- <-. rewrite (IH u v mid post eq_refl Hr).
      reflexivity.
Qed.

Lemma sub_scan_unmatched (s pre r : str) :
  partition start s = Some (pre, r) ->
  partition stop r = None ->
  sub_scan start stop repl 0 s = s.
Proof.
  revert pre r. induction s as [|c s IH]; intros pre r Hs Hr;
    [reflexivity|].
  cbn [partition] in Hs.
  destruct (strip_prefix start (c :: s)) as [r0|] eqn:E.
  - injection Hs as <- ->. apply strip_prefix_spec in E.
    apply (sub_scan_no_stop r Hr (c :: s) []). assumption.
  - destruct (partition start s) as [[u v]|] eqn:Ep; [|discriminate].
    injection Hs as <- <-.
    cbn [sub_scan]. unfold match_here. rewrite E.
    rewrite (IH u v eq_refl Hr). reflexivity.
Qed.

End Substitution.

(** ** The markers of the README *)

Lemma start_not_empty : QUOTE_MARKER_START <> [].
Proof. discriminate. Qed.

Lemma replacement_eq :
  replacement = QUOTE_MARKER_START ++ image_line ++ QUOTE_MARKER_END.
Proof. reflexivity. Qed.

(** In [replacement] the end marker that follows the start marker is its
    own. *)
Lemma replacement_stop (x : str) :
  partition QUOTE_MARKER_END (image_line ++ QUOTE_MARKER_END ++ x)
  = Some (image_line, x).
Proof. vm_compute. reflexivity. Qed.

Lemma resub_match (c pre r mid post : str) :
  partition QUOTE_MARKER_START c = Some (pre, r) ->
  partition QUOTE_MARKER_END r = Some (mid, post) ->
  resub c = pre ++ replacement ++ resub post.
Proof. apply sub_scan_match. apply start_not_empty. Qed.

Lemma resub_unmatched (c pre r : str) :
  partition QUOTE_MARKER_START c = Some (pre, r) ->
  partition QUOTE_MARKER_END r = None ->
  resub c = c.
Proof. apply sub_scan_unmatched. Qed.

Lemma resub_no_start (c : str) :
  partition QUOTE_MARKER_START c = None -> resub c = c.
Proof. apply sub_scan_no_start. Qed.

(** The start marker is still there after the substitution. *)
Lemma resub_keeps_start (c : str) :
  contains QUOTE_MARKER_START c = true ->
  contains QUOTE_MARKER_START (resub c) = true.
Proof.
  unfold contains.
  destruct (partition QUOTE_MARKER_START c) as [[pre r]|] eqn:Es;
    [intros _ | discriminate].
  destruct (partition QUOTE_MARKER_END r) as [[mid post]|] eqn:Ee.
  - rewrite (resub_match _ _ _ _ _ Es Ee), replacement_eq, <- !app_assoc.
    destruct (partition_found QUOTE_MARKER_START pre
                (image_line ++ QUOTE_MARKER_END ++ resub post))
      as (u & v & ->).
    reflexivity.
  - rewrite (resub_unmatched _ _ _ Es Ee), Es. reflexivity.
Qed.

(** Substituting twice is substituting once. *)
Lemma resub_idempotent (c : str) : resub (resub c) = resub c.
Proof.
  remember (length c) as n eqn:Hn.
  assert (Hle : (length c <= n)%nat) by lia. clear Hn.
  revert c Hle. induction n as [|n IH]; intros c Hle.
  - destruct c; [reflexivity | simpl in Hle; lia].
  - destruct (partition QUOTE_MARKER_START c) as [[pre r]|] eqn:Es.
    + destruct (partition QUOTE_MARKER_END r) as [[mid post]|] eqn:Ee.
      * rewrite (resub_match _ _ _ _ _ Es Ee).
        pose proof (partition_spec _ _ _ _ Es) as Ec.
        pose proof (partition_spec _ _ _ _ Ee) as Er.
        rewrite Ec in Es.
        assert (Hpost : (length post <= n)%nat).
        { rewrite Ec, Er in Hle. rewrite !length_app in Hle.
          change (length QUOTE_MARKER_START) with 20%nat in Hle. lia. }
        rewrite replacement_eq, <- !app_assoc.
        rewrite (resub_match
                   (pre ++ QUOTE_MARKER_START ++ image_line
                    ++ QUOTE_MARKER_END ++ resub post)
                   pre (image_line ++ QUOTE_MARKER_END ++ resub post)
                   image_line (resub post)
                   (partition_rest _ _ _ _ Es) (replacement_stop _)).
        rewrite (IH post Hpost), replacement_eq, <- !app_assoc.
        reflexivity.
      * rewrite !(resub_unmatched _ _ _ Es Ee). reflexivity.
    + rewrite !(resub_no_start _ Es). reflexivity.
Qed.

End ScriptFacts.

(* ================================================================== *)
(** * Properties of [update_readme] *)

Lemma update_readme_unreadable
  (q : Script.Quote) (w : Script.world) (e : Script.exception) :
  Script.readme_md w = Script.Unreadable e ->
  Script.update_readme q w = (Script.Raise e, w).
Proof.
  intros H. destruct w as [qj rm qs out path]. simpl in H. subst rm.
  reflexivity.
Qed.

Lemma update_readme_missing (q : Script.Quote) (w : Script.world) (m : str) :
  Script.readme_md w = Script.NotFound m ->
  Script.update_readme q w
  = if Script.encodable
         (lit "Error: " ++ Script.readme_path w ++ lit " not found.")
    then (Script.Exit 1,
          {| Script.quotes_json := Script.quotes_json w;
             Script.readme_md := Script.readme_md w;
             Script.quote_svg := Script.quote_svg w;
             Script.stdout :=
               Script.stdout w
               ++ [lit "Error: " ++ Script.readme_path w ++ lit " not found."];
             Script.readme_path := Script.readme_path w |})
    else (Script.Raise Script.UnicodeEncodeError, w).
Proof.
  intros H. destruct w as [qj rm qs out path]. simpl in H. subst rm.
  cbv beta iota delta [Script.update_readme Script.bind Script.get
                        Script.print Script.sys_exit
                        Script.readme_md Script.readme_path
                        Script.quotes_json Script.quote_svg Script.stdout].
  destruct (Script.encodable (lit "Error: " ++ path ++ lit " not found."));
    reflexivity.
Qed.

Lemma update_readme_no_marker (q : Script.Quote) (w : Script.world) (c : str) :
  Script.readme_md w = Script.Text c ->
  Script.contains Script.QUOTE_MARKER_START c = false ->
  Script.update_readme q w
  = (Script.Exit 1,
     {| Script.quotes_json := Script.quotes_json w;
        Script.readme_md := Script.readme_md w;
        Script.quote_svg := Script.quote_svg w;
        Script.stdout := Script.stdout w ++ [Script.markers_message];
        Script.readme_path := Script.readme_path w |}).
Proof.
  intros H Hc. destruct w as [qj rm qs out path]. simpl in H. subst rm.
  cbv beta iota delta [Script.update_readme Script.bind Script.get
                        Script.readme_md Script.readme_path].
  rewrite Hc. reflexivity.
Qed.

(** What a run does once the start marker is found: the three steps in
    order, each of which stops the run if its text does not encode. *)
Lemma update_readme_marked (q : Script.Quote) (w : Script.world) (c : str) :
  Script.readme_md w = Script.Text c ->
  Script.contains Script.QUOTE_MARKER_START c = true ->
  let svg := generate_quote_svg (Script.quote q) (Script.author q) in
  Script.update_readme q w
  = if Script.encodable svg
    then
      if Script.encodable (Script.resub c)
      then
        if Script.encodable (Script.updated_message q)
        then (Script.Ok tt,
              {| Script.quotes_json := Script.quotes_json w;
                 Script.readme_md := Script.Text (Script.resub c);
                 Script.quote_svg := Script.Text svg;
                 Script.stdout :=
                   Script.stdout w ++ [Script.updated_message q];
                 Script.readme_path := Script.readme_path w |})
        else (Script.Raise Script.UnicodeEncodeError,
              {| Script.quotes_json := Script.quotes_json w;
                 Script.readme_md := Script.Text (Script.resub c);
                 Script.quote_svg := Script.Text svg;
                 Script.stdout := Script.stdout w;
                 Script.readme_path := Script.readme_path w |})
      else (Script.Raise Script.UnicodeEncodeError,
            {| Script.quotes_json := Script.quotes_json w;
               Script.readme_md := Script.Text [];
               Script.quote_svg := Script.Text svg;
               Script.stdout := Script.stdout w;
               Script.readme_path := Script.readme_path w |})
    else (Script.Raise Script.UnicodeEncodeError,
          {| Script.quotes_json := Script.quotes_json w;
             Script.readme_md := Script.readme_md w;
             Script.quote_svg := Script.Text [];
             Script.stdout := Script.stdout w;
             Script.readme_path := Script.readme_path w |}).
Proof.
  intros H Hc svg. destruct w as [qj rm qs out path]. simpl in H. subst rm.
  cbv beta iota delta [Script.update_readme Script.bind Script.get
                        Script.readme_md Script.readme_path].
  rewrite Hc. cbv beta iota delta [negb]. fold svg.
  cbv beta iota delta [Script.write_svg Script.write_readme Script.print
                        Script.quotes_json Script.readme_md Script.quote_svg
                        Script.stdout Script.readme_path].
  destruct (Script.encodable svg); [|reflexivity].
  destruct (Script.encodable (Script.resub c)); [|reflexivity].
  destruct (Script.encodable (Script.updated_message q)); reflexivity.
Qed.

(** A run that returns has found the marker and has written both files. *)
Lemma update_readme_ok_inv (q : Script.Quote) (w : Script.world) :
  fst (Script.update_readme q w) = Script.Ok tt ->
  exists c,
    Script.readme_md w = Script.Text c
    /\ Script.contains Script.QUOTE_MARKER_START c = true
    /\ Script.encodable (Script.resub c) = true
    /\ Script.update_readme q w
       = (Script.Ok tt,
          {| Script.quotes_json := Script.quotes_json w;
             Script.readme_md := Script.Text (Script.resub c);
             Script.quote_svg :=
               Script.Text
                 (generate_quote_svg (Script.quote q) (Script.author q));
             Script.stdout := Script.stdout w ++ [Script.updated_message q];
             Script.readme_path := Script.readme_path w |}).
Proof.
  destruct (Script.readme_md w) as [c | m | e] eqn:E.
  - destruct (Script.contains Script.QUOTE_MARKER_START c) eqn:Ec.
    + rewrite (update_readme_marked q w c E Ec). cbv zeta.
      destruct (Script.encodable (generate_quote_svg _ _));
        [|discriminate].
      destruct (Script.encodable (Script.resub c)) eqn:Er; [|discriminate].
      destruct (Script.encodable (Script.updated_message q));
        [|discriminate].
      intros _. exists c. repeat split; assumption || reflexivity.
    + rewrite (update_readme_no_marker q w c E Ec). discriminate.
  - rewrite (update_readme_missing q w m E).
    destruct (Script.encodable _); discriminate.
  - rewrite (update_readme_unreadable q w e E). discriminate.
Qed.

(** A run that has found the marker does not call [sys.exit]. *)
Lemma update_readme_marked_no_exit
  (q : Script.Quote) (w : Script.world) (c : str) (code : Z) :
  Script.readme_md w = Script.Text c ->
  Script.contains Script.QUOTE_MARKER_START c = true ->
  fst (Script.update_readme q w) <> Script.Exit code.
Proof.
  intros E Ec. rewrite (update_readme_marked q w c E Ec). cbv zeta.
  destruct (Script.encodable (generate_quote_svg _ _)); [|discriminate].
  destruct (Script.encodable (Script.resub c)); [|discriminate].
  destruct (Script.encodable (Script.updated_message q)); discriminate.
Qed.

(** X7.  [update_readme] writes nothing unless README.md is there and
    holds the start marker: a missing README.md gives the line
    [Error: <path> not found.] and exit status 1 (when the path can be
    printed), a README.md without the start marker gives the markers
    message and exit status 1, and another error of reading goes up as it
    is; in all these cases README.md and quote.svg are left as they were.
    A run that returns normally found README.md with the start marker. *)
Theorem update_readme_runs_or_exits (q : Script.Quote) (w : Script.world) :
  let r := Script.update_readme q w in
  (fst r = Script.Ok tt ->
   exists c, Script.readme_md w = Script.Text c
             /\ Script.contains Script.QUOTE_MARKER_START c = true)
  /\ ((forall c, Script.readme_md w = Script.Text c ->
                 Script.contains Script.QUOTE_MARKER_START c = false) ->
      fst r <> Script.Ok tt
      /\ Script.readme_md (snd r) = Script.readme_md w
      /\ Script.quote_svg (snd r) = Script.quote_svg w)
  /\ (forall m, Script.readme_md w = Script.NotFound m ->
        Script.encodable (Script.readme_path w) = true ->
        fst r = Script.Exit 1
        /\ Script.stdout (snd r)
           = Script.stdout w
             ++ [lit "Error: " ++ Script.readme_path w ++ lit " not found."])
  /\ (forall c, Script.readme_md w = Script.Text c ->
        Script.contains Script.QUOTE_MARKER_START c = false ->
        fst r = Script.Exit 1
        /\ Script.stdout (snd r) = Script.stdout w ++ [Script.markers_message])
  /\ (forall e, Script.readme_md w = Script.Unreadable e ->
        r = (Script.Raise e, w)).
Proof.
  intros r. subst r. split; [|split; [|split; [|split]]].
  - intros Hok. destruct (update_readme_ok_inv q w Hok) as (c & Hc & Hin & _).
    exists c. split; assumption.
  - intros Hno. destruct (Script.readme_md w) as [c | m | e] eqn:E.
    + rewrite (update_readme_no_marker q w c E (Hno c eq_refl)). simpl.
      repeat split; [discriminate | assumption].
    + rewrite (update_readme_missing q w m E).
      destruct (Script.encodable _); simpl;
        repeat split; try discriminate; assumption.
    + rewrite (update_readme_unreadable q w e E). simpl.
      repeat split; [discriminate | assumption].
  - intros m E Hpath. rewrite (update_readme_missing q w m E).
    assert (Henc : Script.encodable
                     (lit "Error: " ++ Script.readme_path w
                      ++ lit " not found.") = true).
    { unfold Script.encodable in *. rewrite !forallb_app, Hpath.
      reflexivity. }
    rewrite Henc. split; reflexivity.
  - intros c E Hc. rewrite (update_readme_no_marker q w c E Hc).
    split; reflexivity.
  - intros e E. apply update_readme_unreadable. assumption.
Qed.

Lemma update_readme_runs_or_exits_witness :
  let w := {| Script.quotes_json := Script.NotFound [];
              Script.readme_md := Script.Text (lit "# Hello");
              Script.quote_svg := Script.NotFound [];
              Script.stdout := [];
              Script.readme_path := lit "/repo/README.md" |} in
  let r := Script.update_readme
             {| Script.quote := lit "Talk is cheap.";
                Script.author := lit "Linus" |} w in
  (fst r <> Script.Ok tt
   /\ Script.readme_md (snd r) = Script.readme_md w
   /\ Script.quote_svg (snd r) = Script.quote_svg w)
  /\ fst r = Script.Exit 1
  /\ Script.stdout (snd r) = Script.stdout w ++ [Script.markers_message].
Proof.
  intros w r.
  destruct (update_readme_runs_or_exits
              {| Script.quote := lit "Talk is cheap.";
                 Script.author := lit "Linus" |} w)
    as (_ & H2 & _ & H4 & _).
  split.
  - apply H2. intros c Hc. injection Hc as <-. vm_compute. reflexivity.
  - apply (H4 (lit "# Hello")); [reflexivity | vm_compute; reflexivity].
Defined.

(** X8.  For a run of [update_readme] that returns normally on a
    README.md that holds a start marker and an end marker after it: the
    text before the first start marker is kept, everything from that start
    marker to the nearest end marker after it is replaced by the two
    markers around the image reference, and the text after that end marker
    is treated in the same way; where that text has no start marker it is
    kept as it is.  quote.svg holds the rendered quote. *)
Theorem update_readme_replaces_region
  (q : Script.Quote) (w : Script.world) (c before r between after : str) :
  fst (Script.update_readme q w) = Script.Ok tt ->
  Script.readme_md w = Script.Text c ->
  Script.partition Script.QUOTE_MARKER_START c = Some (before, r) ->
  Script.partition Script.QUOTE_MARKER_END r = Some (between, after) ->
  let w' := snd (Script.update_readme q w) in
  Script.readme_md w'
  = Script.Text (before ++ Script.replacement ++ Script.resub after)
  /\ (Script.contains Script.QUOTE_MARKER_START after = false ->
      Script.readme_md w'
      = Script.Text (before ++ Script.replacement ++ after))
  /\ Script.quote_svg w'
     = Script.Text (generate_quote_svg (Script.quote q) (Script.author q)).
Proof.
  intros Hok Hc Hs He w'. subst w'.
  destruct (update_readme_ok_inv q w Hok) as (c' & Hc' & _ & _ & ->).
  rewrite Hc in Hc'. injection Hc' as <-. simpl.
  rewrite (ScriptFacts.resub_match _ _ _ _ _ Hs He).
  split; [reflexivity | split; [|reflexivity]].
  intros Hafter. rewrite (ScriptFacts.resub_no_start after); [reflexivity|].
  unfold Script.contains in Hafter.
  destruct (Script.partition Script.QUOTE_MARKER_START after);
    [discriminate | reflexivity].
Qed.

Lemma update_readme_replaces_region_witness :
  let c := lit "# Hi" ++ [newline] ++ Script.QUOTE_MARKER_START ++ lit "old"
           ++ Script.QUOTE_MARKER_END ++ [newline] ++ lit "bye" in
  let w := {| Script.quotes_json := Script.NotFound [];
              Script.readme_md := Script.Text c;
              Script.quote_svg := Script.NotFound [];
              Script.stdout := [];
              Script.readme_path := lit "/repo/README.md" |} in
  let q := {| Script.quote := lit "Talk is cheap.";
              Script.author := lit "Linus" |} in
  let w' := snd (Script.update_readme q w) in
  Script.readme_md w'
  = Script.Text ((lit "# Hi" ++ [newline]) ++ Script.replacement
                 ++ Script.resub ([newline] ++ lit "bye"))
  /\ (Script.contains Script.QUOTE_MARKER_START ([newline] ++ lit "bye")
      = false ->
      Script.readme_md w'
      = Script.Text ((lit "# Hi" ++ [newline]) ++ Script.replacement
                     ++ [newline] ++ lit "bye"))
  /\ Script.quote_svg w'
     = Script.Text (generate_quote_svg (Script.quote q) (Script.author q)).
Proof.
  intros c w q.
  apply (update_readme_replaces_region q w c
           (lit "# Hi" ++ [newline])
           (lit "old" ++ Script.QUOTE_MARKER_END ++ [newline] ++ lit "bye")
           (lit "old") ([newline] ++ lit "bye")).
  - vm_compute. reflexivity.
  - reflexivity.
  - vm_compute. reflexivity.
  - vm_compute. reflexivity.
Defined.

(** X9.  When README.md holds a start marker but no end marker after the
    first one, [update_readme] does not stop at the marker check (it does
    not call [sys.exit]); and when that run returns normally, it has
    written quote.svg and has written README.md back unchanged. *)
Theorem update_readme_without_end_marker
  (q : Script.Quote) (w : Script.world) (c before r : str) :
  Script.readme_md w = Script.Text c ->
  Script.partition Script.QUOTE_MARKER_START c = Some (before, r) ->
  Script.contains Script.QUOTE_MARKER_END r = false ->
  let res := Script.update_readme q w in
  (forall code, fst res <> Script.Exit code)
  /\ (fst res = Script.Ok tt ->
      Script.readme_md (snd res) = Script.Text c
      /\ Script.quote_svg (snd res)
         = Script.Text
             (generate_quote_svg (Script.quote q) (Script.author q))).
Proof.
  intros Hc Hs He res. subst res.
  assert (Hin : Script.contains Script.QUOTE_MARKER_START c = true)
    by (unfold Script.contains; rewrite Hs; reflexivity).
  split.
  - intros code. apply (update_readme_marked_no_exit q w c code Hc Hin).
  - intros Hok.
    destruct (update_readme_ok_inv q w Hok) as (c' & Hc' & _ & _ & ->).
    rewrite Hc in Hc'. injection Hc' as <-. simpl.
    rewrite (ScriptFacts.resub_unmatched c before r Hs);
      [split; reflexivity|].
    unfold Script.contains in He.
    destruct (Script.partition Script.QUOTE_MARKER_END r);
      [discriminate | reflexivity].
Qed.

Lemma update_readme_without_end_marker_witness :
  let c := lit "# Hi" ++ [newline] ++ Script.QUOTE_MARKER_START
           ++ lit " nothing closes this" in
  let w := {| Script.quotes_json := Script.NotFound [];
              Script.readme_md := Script.Text c;
              Script.quote_svg := Script.NotFound [];
              Script.stdout := [];
              Script.readme_path := lit "/repo/README.md" |} in
  let q := {| Script.quote := lit "Talk is cheap.";
              Script.author := lit "Linus" |} in
  let res := Script.update_readme q w in
  Script.readme_md (snd res) = Script.Text c
  /\ Script.quote_svg (snd res)
     = Script.Text (generate_quote_svg (Script.quote q) (Script.author q)).
Proof.
  intros c w q.
  apply (update_readme_without_end_marker q w c
           (lit "# Hi" ++ [newline]) (lit " nothing closes this")).
  - reflexivity.
  - vm_compute. reflexivity.
  - vm_compute. reflexivity.
  - vm_compute. reflexivity.
Defined.

(** X10.  After a run of [update_readme] that returned normally, a second
    run, with any quote, does not stop at the marker check (the start
    marker is still there); and when the second run returns normally it
    leaves README.md as the first run wrote it, and quote.svg holds the
    rendering of the second quote. *)
Theorem update_readme_again
  (q1 q2 : Script.Quote) (w : Script.world) :
  fst (Script.update_readme q1 w) = Script.Ok tt ->
  let w1 := snd (Script.update_readme q1 w) in
  let res := Script.update_readme q2 w1 in
  (forall code, fst res <> Script.Exit code)
  /\ (fst res = Script.Ok tt ->
      Script.readme_md (snd res) = Script.readme_md w1
      /\ Script.quote_svg (snd res)
         = Script.Text
             (generate_quote_svg (Script.quote q2) (Script.author q2))).
Proof.
  intros Hok w1 res. subst res w1.
  destruct (update_readme_ok_inv q1 w Hok) as (c & Hc & Hin & _ & ->).
  cbn [snd].
  match goal with
  | |- context [Script.update_readme q2 ?x] => set (w1 := x)
  end.
  assert (H1 : Script.readme_md w1 = Script.Text (Script.resub c))
    by reflexivity.
  pose proof (ScriptFacts.resub_keeps_start c Hin) as Hin1.
  split.
  - intros code.
    apply (update_readme_marked_no_exit q2 w1 (Script.resub c) code H1 Hin1).
  - intros Hok2.
    destruct (update_readme_ok_inv q2 w1 Hok2) as (c' & Hc' & _ & _ & ->).
    rewrite H1 in Hc'. injection Hc' as <-. simpl.
    rewrite ScriptFacts.resub_idempotent. split; reflexivity.
Qed.

Lemma update_readme_again_witness :
  let c := Script.QUOTE_MARKER_START ++ lit "old" ++ Script.QUOTE_MARKER_END in
  let w := {| Script.quotes_json := Script.NotFound [];
              Script.readme_md := Script.Text c;
              Script.quote_svg := Script.NotFound [];
              Script.stdout := [];
              Script.readme_path := lit "/repo/README.md" |} in
  let q1 := {| Script.quote := lit "Talk is cheap.";
               Script.author := lit "Linus" |} in
  let q2 := {| Script.quote := lit "Simple is better than complex.";
               Script.author := lit "Tim" |} in
  let w1 := snd (Script.update_readme q1 w) in
  let res := Script.update_readme q2 w1 in
  Script.readme_md (snd res) = Script.readme_md w1
  /\ Script.quote_svg (snd res)
     = Script.Text (generate_quote_svg (Script.quote q2) (Script.author q2)).
Proof.
  intros c w q1 q2.
  apply (update_readme_again q1 q2 w).
  - vm_compute. reflexivity.
  - vm_compute. reflexivity.
Defined.

(* ================================================================== *)
(** * Properties of [main] *)

(** X11.  When quotes.json is missing or does not decode, [main] prints
    the error and stops the process with status 1; when it decodes to an
    empty list, [random.choice] raises [IndexError].  In all three cases
    README.md and quote.svg are left as they were. *)
Theorem main_stops_before_writing
  (json_load : str -> list Script.Quote + str) (randbelow : nat -> nat)
  (w : Script.world) :
  let res := Script.main json_load randbelow w in
  let untouched :=
    Script.readme_md (snd res) = Script.readme_md w
    /\ Script.quote_svg (snd res) = Script.quote_svg w in
  (forall e, Script.quotes_json w = Script.NotFound e ->
     fst res = Script.Exit 1 /\ untouched
     /\ Script.stdout (snd res)
        = Script.stdout w ++ [lit "Error loading quotes: " ++ e])
  /\ (forall text e,
        Script.quotes_json w = Script.Text text -> json_load text = inr e ->
        fst res = Script.Exit 1 /\ untouched
        /\ Script.stdout (snd res)
           = Script.stdout w ++ [lit "Error loading quotes: " ++ e])
  /\ (forall text,
        Script.quotes_json w = Script.Text text -> json_load text = inl [] ->
        fst res = Script.Raise Script.IndexError /\ untouched
        /\ Script.stdout (snd res) = Script.stdout w).
Proof.
  intros res untouched. subst res untouched.
  destruct w as [qj rm qs out path]. simpl.
  unfold Script.main, Script.load_quotes, Script.bind, Script.get. simpl.
  split; [|split].
  - intros e ->. simpl. repeat split.
  - intros text e -> He. rewrite He. simpl. repeat split.
  - intros text -> He. rewrite He. simpl. repeat split.
Qed.

Lemma main_stops_before_writing_witness :
  let w := {| Script.quotes_json := Script.Text (lit "[]");
              Script.readme_md := Script.Text (lit "# Hi");
              Script.quote_svg := Script.NotFound [];
              Script.stdout := [];
              Script.readme_path := lit "/repo/README.md" |} in
  let res := Script.main (fun _ => inl []) (fun _ => 0%nat) w in
  fst res = Script.Raise Script.IndexError
  /\ (Script.readme_md (snd res) = Script.readme_md w
      /\ Script.quote_svg (snd res) = Script.quote_svg w)
  /\ Script.stdout (snd res) = Script.stdout w.
Proof.
  intros w.
  apply (proj2 (proj2 (main_stops_before_writing
                         (fun _ => inl []) (fun _ => 0%nat) w))
           (lit "[]")); reflexivity.
Defined.

(** X12.  When [main] returns normally, quotes.json decoded to a list, and
    quote.svg holds the rendering of one of the quotes of that list, and
    README.md the old text with the marked regions replaced. *)
Theorem main_renders_a_listed_quote
  (json_load : str -> list Script.Quote + str) (randbelow : nat -> nat)
  (w : Script.world) :
  fst (Script.main json_load randbelow w) = Script.Ok tt ->
  exists text quotes q c,
    Script.quotes_json w = Script.Text text
    /\ json_load text = inl quotes
    /\ In q quotes
    /\ Script.readme_md w = Script.Text c
    /\ Script.quote_svg (snd (Script.main json_load randbelow w))
       = Script.Text
           (generate_quote_svg (Script.quote q) (Script.author q))
    /\ Script.readme_md (snd (Script.main json_load randbelow w))
       = Script.Text (Script.resub c).
Proof.
  assert (Hmain :
    forall ql, Script.quotes_json w = Script.Text ql ->
    forall qs, json_load ql = inl qs ->
    forall q, nth_error qs (randbelow (length qs)) = Some q ->
    Script.main json_load randbelow w = Script.update_readme q w).
  { intros ql Hq qs Hj q Hn. destruct w as [qj rm sv out path].
    simpl in Hq. subst qj.
    cbv beta iota delta [Script.main Script.load_quotes Script.choice
                          Script.bind Script.get Script.ret
                          Script.quotes_json].
    rewrite Hj. cbv beta iota.
    destruct qs as [|q0 qs];
      [simpl in Hn; destruct (randbelow 0%nat); discriminate Hn|].
    rewrite Hn. reflexivity. }
  destruct (Script.quotes_json w) as [text | e | e] eqn:Eq.
  - destruct (json_load text) as [quotes | e] eqn:Ej.
    + destruct (nth_error quotes (randbelow (length quotes)))
        as [q|] eqn:En.
      * rewrite (Hmain text eq_refl quotes Ej q En). intros Hok.
        destruct (update_readme_ok_inv q w Hok) as (c & Hc & _ & _ & ->).
        exists text, quotes, q, c. simpl.
        repeat split; try assumption; try reflexivity.
        apply (nth_error_In _ _ En).
      * clear Hmain. destruct w as [qj rm sv out path].
        simpl in Eq. subst qj.
        cbv beta iota delta [Script.main Script.load_quotes Script.choice
                              Script.bind Script.get Script.ret Script.raise
                              Script.quotes_json].
        rewrite Ej. cbv beta iota.
        destruct quotes as [|q0 quotes]; [discriminate|].
        rewrite En. discriminate.
    + clear Hmain. destruct w as [qj rm sv out path].
      simpl in Eq. subst qj.
      cbv beta iota delta [Script.main Script.load_quotes
                            Script.bind Script.get Script.quotes_json].
      rewrite Ej. discriminate.
  - clear Hmain. destruct w as [qj rm sv out path].
    simpl in Eq. subst qj. discriminate.
  - clear Hmain. destruct w as [qj rm sv out path].
    simpl in Eq. subst qj. discriminate.
Qed.

Lemma main_renders_a_listed_quote_witness :
  let quotes := [ {| Script.quote := lit "Talk is cheap.";
                     Script.author := lit "Linus" |};
                  {| Script.quote := lit "Simple is better than complex.";
                     Script.author := lit "Tim" |} ] in
  let w := {| Script.quotes_json := Script.Text (lit "...");
              Script.readme_md :=
                Script.Text (Script.QUOTE_MARKER_START
                             ++ Script.QUOTE_MARKER_END);
              Script.quote_svg := Script.NotFound [];
              Script.stdout := [];
              Script.readme_path := lit "/repo/README.md" |} in
  exists text quotes' q c,
    Script.quotes_json w = Script.Text text
    /\ (fun _ : str => @inl _ str quotes) text = inl quotes'
    /\ In q quotes'
    /\ Script.readme_md w = Script.Text c
    /\ Script.quote_svg
         (snd (Script.main (fun _ => inl quotes) (fun _ => 1%nat) w))
       = Script.Text
           (generate_quote_svg (Script.quote q) (Script.author q))
    /\ Script.readme_md
         (snd (Script.main (fun _ => inl quotes) (fun _ => 1%nat) w))
       = Script.Text (Script.resub c).
Proof.
  intros quotes w.
  apply (main_renders_a_listed_quote (fun _ => inl quotes) (fun _ => 1%nat) w).
  vm_compute. reflexivity.
Defined.
